(** * N-Queens: Las Vegas prefix placement followed by backtracking

    A shallow embedding of [nqueens.c] and the verification of its board
    invariants, of the backtracking search and of the retry loop.

    Conventions of the embedding:
    - a C [int] or [char] is a [Z] and its arithmetic is that of [Z],
      which is the program's as long as no result leaves the range of a
      32-bit [int]. The largest number computed on a board of size [n] is
      [2 * n - 1], in [create_board] and [reset_board], and [2 * n - 2]
      elsewhere: the embedding is the program for sizes below [max_size],
      which is 2^30, and every theorem that states that an operation
      completes carries that bound;
    - the result of a C comparison or of [&&] is a [bool];
    - a heap array is a [list Z]; reading or writing outside of it is the
      error [OutOfBounds] (undefined behaviour in C);
    - [backtrack] recurses and [repeat_lv] loops without a bound, both take
      a fuel argument and answer [OutOfFuel] when it is exhausted;
    - a [for] loop whose bound no statement assigns runs its body a counted
      number of times. *)

From stdpp Require Import base list strings pretty.
From Stdlib Require Import ZArith Lia.

Local Open Scope Z_scope.

(** ** Machine integers *)

Definition INT_MAX : Z := 2147483647.
Definition INT_MIN : Z := -2147483648.

(** [z] is a value of the C type [int]. *)
Definition in_int (z : Z) : Prop := INT_MIN ≤ z ≤ INT_MAX.

(** 2^30. On a board of at most that size [y + x] and
    [y - x + shift_diag45] are values of [int]; for a size strictly
    between [- max_size] and [max_size] so are [size * 2 - 1] and
    [size - 1]. *)
Definition max_size : Z := 1073741824.

(** ** Results of fallible computations *)

Inductive res (A : Type) : Type :=
| Ok (a : A)
| OutOfBounds
| OutOfFuel.

Arguments Ok {A} a.
Arguments OutOfBounds {A}.
Arguments OutOfFuel {A}.

#[global] Instance res_ret : MRet res := @Ok.
#[global] Instance res_bind : MBind res := λ A B f m,
  match m with
  | Ok a => f a
  | OutOfBounds => OutOfBounds
  | OutOfFuel => OutOfFuel
  end.
#[global] Instance res_fmap : FMap res := λ A B f m,
  match m with
  | Ok a => Ok (f a)
  | OutOfBounds => OutOfBounds
  | OutOfFuel => OutOfFuel
  end.

(** ** Arrays *)

(** [a[i]] *)
Definition rd (a : list Z) (i : Z) : res Z :=
  if 0 <=? i then
    match a !! Z.to_nat i with
    | Some v => Ok v
    | None => OutOfBounds
    end
  else OutOfBounds.

(** [a[i] = v] *)
Definition wr (a : list Z) (i v : Z) : res (list Z) :=
  if (0 <=? i) && (i <? Z.of_nat (length a)) then Ok (<[Z.to_nat i := v]> a)
  else OutOfBounds.

(** [malloc(sizeof(T[n]))]: [n] cells that hold no meaningful value yet; a
    non-positive [n] gives no cell at all. *)
Definition malloc (n : Z) : list Z := replicate (Z.to_nat n) 0.

(** [for (int i = lo; i < hi; ++i) body] without early exit. *)
Fixpoint for_loop {S : Type} (k : nat) (i : Z) (body : Z → S → res S) (s : S)
  : res S :=
  match k with
  | O => Ok s
  | S k' => s' ← body i s; for_loop k' (i + 1) body s'
  end.

Definition for_range {S : Type} (lo hi : Z) (body : Z → S → res S) (s : S)
  : res S :=
  for_loop (Z.to_nat (hi - lo)) lo body s.

(** ** The board *)

Record Board : Type := mkBoard {
  size : Z;
  shift_diag45 : Z;
  solution : list Z;
  col_is_free : list Z;
  diag45_is_free : list Z;
  diag135_is_free : list Z
}.

Definition set_solution (b : Board) (a : list Z) : Board :=
  mkBoard (size b) (shift_diag45 b) a (col_is_free b) (diag45_is_free b)
          (diag135_is_free b).
Definition set_col_is_free (b : Board) (a : list Z) : Board :=
  mkBoard (size b) (shift_diag45 b) (solution b) a (diag45_is_free b)
          (diag135_is_free b).
Definition set_diag45_is_free (b : Board) (a : list Z) : Board :=
  mkBoard (size b) (shift_diag45 b) (solution b) (col_is_free b) a
          (diag135_is_free b).
Definition set_diag135_is_free (b : Board) (a : list Z) : Board :=
  mkBoard (size b) (shift_diag45 b) (solution b) (col_is_free b)
          (diag45_is_free b) a.

(** The two derived indices of the square [(x, y)]; the C expressions
    are these as long as the board has at most [max_size] rows. *)
Definition diag45_index (b : Board) (x y : Z) : Z := y - x + shift_diag45 b.
Definition diag135_index (x y : Z) : Z := y + x.

(** The body of the first and of the second loop of [create_board] and of
    [reset_board]. *)
Definition init_row_col (i : Z) (b : Board) : res Board :=
  s ← wr (solution b) i (-1);
  c ← wr (col_is_free b) i 1;
  Ok (set_col_is_free (set_solution b s) c).

Definition init_diags (i : Z) (b : Board) : res Board :=
  d ← wr (diag45_is_free b) i 1;
  e ← wr (diag135_is_free b) i 1;
  Ok (set_diag135_is_free (set_diag45_is_free b d) e).

(** [size * 2 - 1] is the C expression for [size] strictly between
    [- max_size] and [max_size]; so is [2 * size - 1] in [reset_board]. *)
Definition create_board (size : Z) : res Board :=
  let board :=
    mkBoard size (size - 1) (malloc size) (malloc size)
            (malloc (size * 2 - 1)) (malloc (size * 2 - 1)) in
  board ← for_range 0 size init_row_col board;
  for_range 0 (2 * size - 1) init_diags board.

Definition reset_board (b : Board) : res Board :=
  b ← for_range 0 (size b) init_row_col b;
  for_range 0 (2 * size b - 1) init_diags b.

Definition is_valid (b : Board) : res bool :=
  v ← rd (solution b) (size b - 1);
  Ok (negb (v =? -1)).

(** [&&] evaluates left to right and stops at the first zero. *)
Definition can_place_queen (b : Board) (x y : Z) : res bool :=
  c ← rd (col_is_free b) x;
  if c =? 0 then Ok false else
  d ← rd (diag45_is_free b) (diag45_index b x y);
  if d =? 0 then Ok false else
  e ← rd (diag135_is_free b) (diag135_index x y);
  Ok (negb (e =? 0)).

Definition place_queen (b : Board) (x y : Z) : res Board :=
  s ← wr (solution b) y x;
  c ← wr (col_is_free b) x 0;
  d ← wr (diag45_is_free b) (diag45_index b x y) 0;
  e ← wr (diag135_is_free b) (diag135_index x y) 0;
  Ok (mkBoard (size b) (shift_diag45 b) s c d e).

Definition remove_queen (b : Board) (x y : Z) : res Board :=
  s ← wr (solution b) y (-1);
  c ← wr (col_is_free b) x 1;
  d ← wr (diag45_is_free b) (diag45_index b x y) 1;
  e ← wr (diag135_is_free b) (diag135_index x y) 1;
  Ok (mkBoard (size b) (shift_diag45 b) s c d e).

(** ** The program state and its monad *)

(** Besides the board the program reads the C library's random numbers:
    [rand_src] is the sequence [rand()] returns, [rand_calls] how many of
    them were consumed. [visited] is a ghost history, the board after each
    mutation, newest first; no operation reads it. *)
Record World : Type := mkWorld {
  board : Board;
  rand_src : nat → N;
  rand_calls : nat;
  visited : list Board
}.

Definition M (A : Type) : Type := World → res (A * World).

Definition ret {A : Type} (a : A) : M A := λ w, Ok (a, w).

Definition bind {A B : Type} (m : M A) (f : A → M B) : M B := λ w,
  match m w with
  | Ok (a, w') => f a w'
  | OutOfBounds => OutOfBounds
  | OutOfFuel => OutOfFuel
  end.

Declare Scope prog_scope.
Delimit Scope prog_scope with prog.
Bind Scope prog_scope with M.
Notation "x <- m ;; k" := (bind m (λ x, k))
  (at level 100, m at next level, right associativity) : prog_scope.
Notation "m ;; k" := (bind m (λ _, k))
  (at level 100, right associativity) : prog_scope.

(** A read-only call on the board. *)
Definition query {A : Type} (f : Board → res A) : M A := λ w,
  a ← f (board w); Ok (a, w).

(** A mutating call on the board. *)
Definition update (f : Board → res Board) : M unit := λ w,
  b ← f (board w);
  Ok (tt, mkWorld b (rand_src w) (rand_calls w) (b :: visited w)).

(** [rand()] *)
Definition rand : M Z := λ w,
  Ok (Z.of_N (rand_src w (rand_calls w)),
      mkWorld (board w) (rand_src w) (S (rand_calls w)) (visited w)).

Definition lift {A : Type} (r : res A) : M A := λ w, a ← r; Ok (a, w).

Definition out_of_fuel {A : Type} : M A := λ _, OutOfFuel.

(** ** Backtracking *)

(** The [for] loop of [backtrack], from column [x] on, [k] columns left;
    [rec] is the recursive call [backtrack(board, y + 1)]. *)
Fixpoint backtrack_cols (rec : M bool) (k : nat) (x y : Z) : M bool :=
  match k with
  | O => ret false
  | S k' =>
      (c <- query (λ b, can_place_queen b x y);;
       if c : bool then
         update (λ b, place_queen b x y);;
         success <- rec;;
         if success : bool then ret true
         else update (λ b, remove_queen b x y);;
              backtrack_cols rec k' (x + 1) y
       else backtrack_cols rec k' (x + 1) y)%prog
  end.

Fixpoint backtrack (fuel : nat) (y : Z) : M bool :=
  match fuel with
  | O => out_of_fuel
  | S fuel' =>
      (v <- query is_valid;;
       if v : bool then ret true
       else
         n <- query (λ b, Ok (size b));;
         backtrack_cols (backtrack fuel' (y + 1)) (Z.to_nat (n - 0)) 0 y)%prog
  end.

(** ** Las Vegas search *)

(** The inner loop of [solve_lv]: the columns free for row [y] are written
    to the front of [available_cols]; the state is the array and [index]. *)
Definition collect_col (b : Board) (y x : Z) (s : list Z * Z)
  : res (list Z * Z) :=
  c ← can_place_queen b x y;
  if c : bool then a ← wr s.1 s.2 x; Ok (a, s.2 + 1) else Ok s.

Definition available (y : Z) (available_cols : list Z) (b : Board)
  : res (list Z * Z) :=
  for_range 0 (size b) (collect_col b y) (available_cols, 0).

(** The outer loop of [solve_lv], from row [y] on, [k] rows left. It ends
    with [available_cols] and with [Some r] for the early [return r], with
    [None] for the normal exit. *)
Fixpoint solve_lv_rows (k : nat) (y : Z) (available_cols : list Z)
  : M (option bool * list Z) :=
  match k with
  | O => ret (None, available_cols)
  | S k' =>
      (s <- query (available y available_cols);;
       if s.2 =? 0 then ret (Some false, s.1)
       else
         r <- rand;;
         x <- lift (rd s.1 (Z.rem r s.2));;
         update (λ b, place_queen b x y);;
         solve_lv_rows k' (y + 1) s.1)%prog
  end.

Definition solve_lv (fuel : nat) (random_queens : Z) : M bool :=
  (n <- query (λ b, Ok (size b));;
   exit <- solve_lv_rows (Z.to_nat (random_queens - 0)) 0 (malloc n);;
   match exit.1 with
   | Some r => ret r
   | None => backtrack fuel random_queens
   end)%prog.

(** The [do ... while] of [repeat_lv]; the result is the final [*trials]. *)
Fixpoint repeat_lv_loop (fuel : nat) (random_queens trials : Z) : M Z :=
  match fuel with
  | O => out_of_fuel
  | S fuel' =>
      (update reset_board;;
       found <- solve_lv fuel' random_queens;;
       if found : bool then ret (trials + 1)
       else repeat_lv_loop fuel' random_queens (trials + 1))%prog
  end.

Definition repeat_lv (fuel : nat) (random_queens : Z) : M Z :=
  repeat_lv_loop fuel random_queens 0.

(** The state right after [create_board(n)]. *)
Definition start (rs : nat → N) (b : Board) : World := mkWorld b rs 0 [b].

Definition fresh (n : Z) : Board :=
  mkBoard n (n - 1) (replicate (Z.to_nat n) (-1)) (replicate (Z.to_nat n) 1)
          (replicate (Z.to_nat (2 * n - 1)) 1)
          (replicate (Z.to_nat (2 * n - 1)) 1).


(** * Specification vocabulary *)

(** [shape n b]: [b] has the dimensions [create_board(n)] gives it. *)
Record shape (n : Z) (b : Board) : Prop := mkShape {
  shape_size : size b = n;
  shape_shift : shift_diag45 b = n - 1;
  shape_solution : length (solution b) = Z.to_nat n;
  shape_col : length (col_is_free b) = Z.to_nat n;
  shape_diag45 : length (diag45_is_free b) = Z.to_nat (2 * n - 1);
  shape_diag135 : length (diag135_is_free b) = Z.to_nat (2 * n - 1)
}.

(** The four writes of [place_queen] and [remove_queen]: [q] goes to
    [solution[y]], [c] to the column cell and to the two diagonal cells. *)
Definition put (b : Board) (x y q c : Z) : Board :=
  mkBoard (size b) (shift_diag45 b)
          (<[Z.to_nat y := q]> (solution b))
          (<[Z.to_nat x := c]> (col_is_free b))
          (<[Z.to_nat (diag45_index b x y) := c]> (diag45_is_free b))
          (<[Z.to_nat (diag135_index x y) := c]> (diag135_is_free b)).

(** All four cells of the square [(x, y)] exist. *)
Definition inside (b : Board) (x y : Z) : Prop :=
  0 ≤ y < Z.of_nat (length (solution b)) ∧
  0 ≤ x < Z.of_nat (length (col_is_free b)) ∧
  0 ≤ diag45_index b x y < Z.of_nat (length (diag45_is_free b)) ∧
  0 ≤ diag135_index x y < Z.of_nat (length (diag135_is_free b)).

(** Row [y] holds a queen, in column [x]. *)
Definition queen (s : list Z) (y x : Z) : Prop := rd s y = Ok x ∧ x ≠ -1.

(** No two queens share a column, a rising or a falling diagonal. *)
Definition no_attack (s : list Z) : Prop :=
  ∀ y1 y2 x1 x2, queen s y1 x1 → queen s y2 x2 → y1 ≠ y2 →
    x1 ≠ x2 ∧ y1 - x1 ≠ y2 - x2 ∧ y1 + x1 ≠ y2 + x2.

(** Cell [i] of the tracking array [a] is 0 when [P] holds and 1 when it
    does not. *)
Definition tracks (a : list Z) (i : Z) (P : Prop) : Prop :=
  (P ∧ rd a i = Ok 0) ∨ (¬ P ∧ rd a i = Ok 1).

Record consistent (n : Z) (b : Board) : Prop := mkConsistent {
  cons_shape : shape n b;
  cons_entries : ∀ y x, queen (solution b) y x → 0 ≤ x < n;
  cons_col : ∀ x, 0 ≤ x < n →
    tracks (col_is_free b) x (∃ y, queen (solution b) y x);
  cons_diag45 : ∀ d, 0 ≤ d < 2 * n - 1 →
    tracks (diag45_is_free b) d
           (∃ x y, queen (solution b) y x ∧ y - x + (n - 1) = d);
  cons_diag135 : ∀ d, 0 ≤ d < 2 * n - 1 →
    tracks (diag135_is_free b) d (∃ x y, queen (solution b) y x ∧ y + x = d);
  cons_safe : no_attack (solution b)
}.

(** The tracking arrays in lockstep with [solution]: a column cell is zero
    exactly when some row holds a queen in that column, a diagonal cell
    exactly when some queen has that derived index. *)
Definition lockstep (b : Board) : Prop :=
  let n := size b in
  (∀ x, 0 ≤ x < n → ∃ c, rd (col_is_free b) x = Ok c ∧
     (c = 0 ↔ ∃ y, rd (solution b) y = Ok x)) ∧
  (∀ d, 0 ≤ d < 2 * n - 1 → ∃ c, rd (diag45_is_free b) d = Ok c ∧
     (c = 0 ↔ ∃ x y, queen (solution b) y x ∧ y - x + (n - 1) = d)) ∧
  (∀ d, 0 ≤ d < 2 * n - 1 → ∃ c, rd (diag135_is_free b) d = Ok c ∧
     (c = 0 ↔ ∃ x y, queen (solution b) y x ∧ y + x = d)).

(** What a caller of [place_queen] has to establish: the coordinates are
    on the board and [can_place_queen] answered true. *)
Definition place_pre (b : Board) (x y : Z) : Prop :=
  0 ≤ x < size b ∧ 0 ≤ y < size b ∧ can_place_queen b x y = Ok true.

(** The same, and row [y] holds no queen yet, as at every call of
    [place_queen] in [backtrack] and [solve_lv]. *)
Definition place_pre_row (b : Board) (x y : Z) : Prop :=
  place_pre b x y ∧ rd (solution b) y = Ok (-1).

(** What a caller of [remove_queen] has to establish: row [y] holds the
    queen placed in column [x]. *)
Definition remove_pre (b : Board) (x y : Z) : Prop :=
  queen (solution b) y x.

(** The boards obtained from [create_board(n)] by calls of [place_queen]
    and [remove_queen], each under its precondition; [pre] is the one
    taken for [place_queen]. *)
Inductive reachable (pre : Board → Z → Z → Prop) (n : Z) : Board → Prop :=
| reach_create b :
    create_board n = Ok b → reachable pre n b
| reach_place b x y b' :
    reachable pre n b → pre b x y → place_queen b x y = Ok b' →
    reachable pre n b'
| reach_remove b x y b' :
    reachable pre n b → remove_pre b x y → remove_queen b x y = Ok b' →
    reachable pre n b'.

(** Sequences of calls of [place_queen] and [remove_queen]. *)
Inductive op : Type :=
| Place (x y : Z)
| Remove (x y : Z).

Definition apply_op (o : op) (b : Board) : res Board :=
  match o with
  | Place x y => place_queen b x y
  | Remove x y => remove_queen b x y
  end.

Fixpoint run_ops (ops : list op) (b : Board) : res Board :=
  match ops with
  | [] => Ok b
  | o :: ops' => b' ← apply_op o b; run_ops ops' b'
  end.

(** [well_nested pending ops]: every [Remove] of [ops] undoes the most
    recent [Place] not yet undone, those of [pending] included, and none
    is left at the end. *)
Fixpoint well_nested (pending : list (Z * Z)) (ops : list op) : bool :=
  match ops with
  | [] => match pending with [] => true | _ :: _ => false end
  | Place x y :: ops' => well_nested ((x, y) :: pending) ops'
  | Remove x y :: ops' =>
      match pending with
      | [] => false
      | (x', y') :: pending' =>
          (x =? x') && (y =? y') && well_nested pending' ops'
      end
  end.

(** Every [Place] of [ops] is on a square of the board of size [n]. *)
Definition on_board (n : Z) (ops : list op) : Prop :=
  ∀ x y, In (Place x y) ops → 0 ≤ x < n ∧ 0 ≤ y < n.

(** The writes of [remove_queen] on one square, and on each square of
    [pending], most recent first. *)
Definition wipe (b : Board) (q : Z * Z) : Board := put b q.1 q.2 (-1) 1.
Definition wipe_all (pending : list (Z * Z)) (b : Board) : Board :=
  fold_left wipe pending b.

(** ** States of the search *)

(** The rows below [y] hold a queen and the rows from [y] on hold none. *)
Definition row_order (n y : Z) (s : list Z) : Prop :=
  ∀ i, 0 ≤ i < n → (i < y → ∃ x, queen s i x) ∧ (y ≤ i → rd s i = Ok (-1)).

(** The boards the searches work on: consistent, with the first [y] rows
    filled. *)
Definition search_state (n y : Z) (b : Board) : Prop :=
  consistent n b ∧ 0 ≤ y ≤ n ∧ row_order n y (solution b).

(** A solution of the [n]-queens problem: one queen per row, on the board,
    no two of them attacking each other. *)
Definition is_solution (n : Z) (s : list Z) : Prop :=
  length s = Z.to_nat n ∧
  (∀ y, 0 ≤ y < n → ∃ x, rd s y = Ok x ∧ 0 ≤ x < n) ∧
  no_attack s.

Definition solvable (n : Z) : Prop := ∃ s, is_solution n s.

(** [s'] has the rows below [y] as [s] has them. *)
Definition agree (y : Z) (s s' : list Z) : Prop :=
  ∀ i, 0 ≤ i < y → rd s' i = rd s i.

(** From [w] to [w'] the random source is the same one and every board
    visited in between is a search state. *)
Definition evolves (n : Z) (w w' : World) : Prop :=
  rand_src w' = rand_src w ∧
  ∃ l, visited w' = l ++ visited w ∧ Forall (λ b, ∃ y, search_state n y b) l.

(** What a call [backtrack(board, y)] from [w] achieves when it returns
    [r] in [w']. *)
Definition backtrack_post (n y : Z) (w : World) (r : bool) (w' : World)
  : Prop :=
  evolves n w w' ∧ rand_calls w' = rand_calls w ∧
  if r then
    search_state n n (board w') ∧
    agree y (solution (board w)) (solution (board w'))
  else
    board w' = board w ∧
    ∀ s, is_solution n s → ¬ agree y (solution (board w)) s.

(** [m'] returns whatever [m] returns. *)
Definition refines {A : Type} (m m' : M A) : Prop :=
  ∀ w v, m w = Ok v → m' w = Ok v.

(** The state [s] of the inner loop of [solve_lv] when it reaches column
    [x] of row [y]: the first [s.2] cells of the array hold columns below
    [x] that [can_place_queen] accepts, and none is held only if it
    refuses every column below [x]. *)
Definition collected (n : Z) (b : Board) (y x : Z) (s : list Z * Z) : Prop :=
  length s.1 = Z.to_nat n ∧ 0 ≤ s.2 ≤ x ∧
  (∀ j, 0 ≤ j < s.2 →
     ∃ c, rd s.1 j = Ok c ∧ 0 ≤ c < x ∧ can_place_queen b c y = Ok true) ∧
  (s.2 = 0 → ∀ c, 0 ≤ c < x → can_place_queen b c y = Ok false).

(** No two entries of [s] name the same column or lie on a common rising
    or falling diagonal. *)
Definition entries_disjoint (s : list Z) : Prop :=
  ∀ y1 y2 x1 x2, y1 ≠ y2 → rd s y1 = Ok x1 → rd s y2 = Ok x2 →
    x1 ≠ x2 ∧ y1 - x1 ≠ y2 - x2 ∧ y1 + x1 ≠ y2 + x2.

(** [is_valid] answers true on [b] only if [b] holds a solution. *)
Definition complete_is_solution (n : Z) (b : Board) : Prop :=
  is_valid b = Ok true →
  is_solution n (solution b) ∧ entries_disjoint (solution b).

(** The state [repeat_lv] leaves [reset_board] with. *)
Definition after_reset (n : Z) (w : World) : World :=
  mkWorld (fresh n) (rand_src w) (rand_calls w) (fresh n :: visited w).

(** [can_place_queen] accepts the square [(x, y)]. *)
Definition accepts (b : Board) (y x : Z) : bool :=
  match can_place_queen b x y with
  | Ok c => c
  | _ => false
  end.

(** The columns of row [y] that [can_place_queen] accepts, in increasing
    order. *)
Definition free_columns (b : Board) (y : Z) : list Z :=
  filter (λ x, accepts b y x = true) (seqZ 0 (size b)).

(** Those among the first [j] columns. *)
Definition accepted_below (b : Board) (y : Z) (j : nat) : list Z :=
  filter (λ x, accepts b y x = true) (seqZ 0 (Z.of_nat j)).

(** [s] comes before [s'], or is [s'], when the rows 0 to [n - 1] are read
    as a word: they agree on all rows, or on those below some row where
    [s] has the smaller column. *)
Definition lex_le (n : Z) (s s' : list Z) : Prop :=
  agree n s s' ∨
  ∃ i x x', 0 ≤ i < n ∧ agree i s s' ∧
            rd s i = Ok x ∧ rd s' i = Ok x' ∧ x < x'.

(** The board of [w'] holds the first of the solutions that have the
    queens of the first [y] rows of the board of [w]. *)
Definition least_from (n y : Z) (w w' : World) : Prop :=
  ∀ s, is_solution n s → agree y (solution (board w)) s →
       lex_le n (solution (board w')) s.

(** Two states with the same board, under a random source that returns
    [c] at every call. *)
Definition alike (c : N) (w1 w2 : World) : Prop :=
  board w1 = board w2 ∧ rand_src w1 = (λ _, c) ∧ rand_src w2 = (λ _, c).

(** From such states [m] ends the same way, with the same result, in such
    states again. *)
Definition alike_runs {A : Type} (c : N) (m : M A) : Prop :=
  ∀ w1 w2, alike c w1 w2 →
    match m w1, m w2 with
    | Ok (a1, w1'), Ok (a2, w2') => a1 = a2 ∧ alike c w1' w2'
    | OutOfBounds, OutOfBounds => True
    | OutOfFuel, OutOfFuel => True
    | _, _ => False
    end.

(** ** Printing *)

(** The text a function writes to the standard output is its result;
    [printf("%d", v)] writes [pretty v]. *)
Definition newline : string := String (Ascii.ascii_of_nat 10) "".

(** The body of the loop of [print_board]. *)
Definition print_cell (b : Board) (i : Z) (out : string) : res string :=
  v ← rd (solution b) i; Ok (out +:+ pretty v +:+ ",").

Definition print_board (b : Board) : res string :=
  out ← for_range 0 (size b - 1) (print_cell b) "[";
  v ← rd (solution b) (size b - 1);
  Ok (out +:+ pretty v +:+ "]" +:+ newline).

(** [free] leaves the four arrays without a cell that may be accessed. *)
Definition delete_board (b : Board) : Board :=
  mkBoard (size b) (shift_diag45 b) [] [] [] [].

(** [print_solution] works on a board of its own; the state it returns
    holds that board after [delete_board]. *)
Definition print_solution (fuel : nat) (queens rand_queens : Z) : M string :=
  λ w,
    b ← create_board queens;
    r ← repeat_lv fuel rand_queens
          (mkWorld b (rand_src w) (rand_calls w) (b :: visited w));
    out ← print_board (board r.2);
    Ok (out, mkWorld (delete_board (board r.2)) (rand_src r.2)
                     (rand_calls r.2) (visited r.2)).

(** The columns [s], in brackets and separated by commas, and a line
    break. *)
Definition listing (s : list Z) : string :=
  "[" +:+ String.concat "," (pretty <$> s) +:+ "]" +:+ newline.

(** Each column of [s] followed by a comma. *)
Fixpoint with_commas (s : list Z) : string :=
  match s with
  | [] => ""
  | v :: s' => pretty v +:+ "," +:+ with_commas s'
  end.

(** * Verification *)

(** ** Arrays *)

Section arrays.
Implicit Types (a : list Z) (i j v : Z).

Lemma rd_Ok a i v : rd a i = Ok v ↔ 0 ≤ i ∧ a !! Z.to_nat i = Some v.
Proof.
  unfold rd. destruct (Z.leb_spec 0 i) as [Hi|Hi].
  - destruct (a !! Z.to_nat i) as [u|]; split.
    + intros [= ->]. done.
    + intros [_ [= ->]]. done.
    + discriminate.
    + intros [_ [=]].
  - split; [discriminate | lia].
Qed.

Lemma rd_in_bounds a i :
  0 ≤ i < Z.of_nat (length a) → ∃ v, rd a i = Ok v.
Proof.
  intros Hi. destruct (lookup_lt_is_Some_2 a (Z.to_nat i)) as [v Hv]; [lia|].
  exists v. apply rd_Ok. split; [lia | done].
Qed.

Lemma rd_bounds a i v : rd a i = Ok v → 0 ≤ i < Z.of_nat (length a).
Proof.
  intros [Hi Hl]%rd_Ok. apply lookup_lt_Some in Hl. lia.
Qed.

Lemma rd_out_of_bounds a i :
  ¬ (0 ≤ i < Z.of_nat (length a)) → rd a i = OutOfBounds.
Proof.
  intros Hi. unfold rd. destruct (Z.leb_spec 0 i); [|done].
  rewrite lookup_ge_None_2; [done | lia].
Qed.

Lemma wr_in_bounds a i v :
  0 ≤ i < Z.of_nat (length a) → wr a i v = Ok (<[Z.to_nat i := v]> a).
Proof.
  intros Hi. unfold wr.
  destruct (Z.leb_spec 0 i); [|lia].
  destruct (Z.ltb_spec i (Z.of_nat (length a))); [done | lia].
Qed.

Lemma wr_Ok a i v a' :
  wr a i v = Ok a' →
  0 ≤ i < Z.of_nat (length a) ∧ a' = <[Z.to_nat i := v]> a.
Proof.
  unfold wr. destruct (Z.leb_spec 0 i); [|discriminate].
  destruct (Z.ltb_spec i (Z.of_nat (length a))); [|discriminate].
  simpl. intros [= <-]. split; [lia | done].
Qed.

Lemma rd_insert_eq a i v :
  0 ≤ i < Z.of_nat (length a) → rd (<[Z.to_nat i := v]> a) i = Ok v.
Proof.
  intros Hi. apply rd_Ok. split; [lia|].
  apply list_lookup_insert_eq. lia.
Qed.

Lemma rd_insert_ne a i j v :
  0 ≤ i → i ≠ j → rd (<[Z.to_nat i := v]> a) j = rd a j.
Proof.
  intros Hi Hne. unfold rd. destruct (Z.leb_spec 0 j); [|done].
  rewrite list_lookup_insert_ne; [done | lia].
Qed.

Lemma rd_replicate (k : nat) v i :
  0 ≤ i < Z.of_nat k → rd (replicate k v) i = Ok v.
Proof.
  intros Hi. apply rd_Ok. split; [lia|].
  apply lookup_replicate_2. lia.
Qed.

Lemma rd_replicate_inv (k : nat) v w i : rd (replicate k v) i = Ok w → w = v.
Proof.
  intros [_ H]%rd_Ok. apply lookup_replicate in H. by destruct H.
Qed.
End arrays.

#[global] Arguments rd : simpl never.
#[global] Arguments wr : simpl never.

(** Sequencing in [res]. *)
Lemma bind_Ok {A B : Type} (m : res A) (f : A → res B) (r : B) :
  m ≫= f = Ok r → ∃ a, m = Ok a ∧ f a = Ok r.
Proof. destruct m; simpl; [eauto | discriminate | discriminate]. Qed.

(** ** Boards of a given size *)

Lemma shape_fresh n : shape n (fresh n).
Proof. split; simpl; rewrite ?length_replicate; done. Qed.

Section init_loops.
Lemma init_row_col_Ok i b :
  0 ≤ i < Z.of_nat (length (solution b)) →
  0 ≤ i < Z.of_nat (length (col_is_free b)) →
  init_row_col i b
  = Ok (set_col_is_free (set_solution b (<[Z.to_nat i := -1]> (solution b)))
                        (<[Z.to_nat i := 1]> (col_is_free b))).
Proof. intros Hs Hc. unfold init_row_col. by rewrite !wr_in_bounds. Qed.

Lemma init_diags_Ok i b :
  0 ≤ i < Z.of_nat (length (diag45_is_free b)) →
  0 ≤ i < Z.of_nat (length (diag135_is_free b)) →
  init_diags i b
  = Ok (set_diag135_is_free
          (set_diag45_is_free b (<[Z.to_nat i := 1]> (diag45_is_free b)))
          (<[Z.to_nat i := 1]> (diag135_is_free b))).
Proof. intros Hd He. unfold init_diags. by rewrite !wr_in_bounds. Qed.

(** The first loop overwrites [solution] and [col_is_free] cell by cell. *)
Lemma init_row_col_loop (k j : nat) b ss cs :
  solution b = replicate j (-1) ++ ss →
  col_is_free b = replicate j 1 ++ cs →
  length ss = k → length cs = k →
  for_loop k (Z.of_nat j) init_row_col b
  = Ok (set_col_is_free (set_solution b (replicate (j + k) (-1)))
                        (replicate (j + k) 1)).
Proof.
  revert j b ss cs. induction k as [|k IH]; intros j b ss cs Hs Hc Hls Hlc.
  - destruct ss, cs; try discriminate. rewrite !app_nil_r in *.
    rewrite Nat.add_0_r. destruct b. simpl in *. by subst.
  - destruct ss as [|s0 ss], cs as [|c0 cs]; try discriminate.
    cbn [for_loop]. rewrite init_row_col_Ok
      by (rewrite ?Hs, ?Hc, length_app, length_replicate; simpl; lia).
    cbn [mbind res_bind]. rewrite Nat2Z.id.
    replace (Z.of_nat j + 1) with (Z.of_nat (S j)) by lia.
    rewrite (IH (S j) _ ss cs).
    + replace (S j + k)%nat with (j + S k)%nat by lia. done.
    + cbn. rewrite Hs, insert_app_r_alt by (rewrite length_replicate; lia).
      rewrite length_replicate, Nat.sub_diag, app_comm_cons.
      rewrite replicate_cons_app, <- app_assoc. done.
    + cbn. rewrite Hc, insert_app_r_alt by (rewrite length_replicate; lia).
      rewrite length_replicate, Nat.sub_diag, app_comm_cons.
      rewrite replicate_cons_app, <- app_assoc. done.
    + simpl in Hls. lia.
    + simpl in Hlc. lia.
Qed.

(** The second loop does the same to the two diagonal arrays. *)
Lemma init_diags_loop (k j : nat) b ds es :
  diag45_is_free b = replicate j 1 ++ ds →
  diag135_is_free b = replicate j 1 ++ es →
  length ds = k → length es = k →
  for_loop k (Z.of_nat j) init_diags b
  = Ok (set_diag135_is_free (set_diag45_is_free b (replicate (j + k) 1))
                            (replicate (j + k) 1)).
Proof.
  revert j b ds es. induction k as [|k IH]; intros j b ds es Hd He Hld Hle.
  - destruct ds, es; try discriminate. rewrite !app_nil_r in *.
    rewrite Nat.add_0_r. destruct b. simpl in *. by subst.
  - destruct ds as [|d0 ds], es as [|e0 es]; try discriminate.
    cbn [for_loop]. rewrite init_diags_Ok
      by (rewrite ?Hd, ?He, length_app, length_replicate; simpl; lia).
    cbn [mbind res_bind]. rewrite Nat2Z.id.
    replace (Z.of_nat j + 1) with (Z.of_nat (S j)) by lia.
    rewrite (IH (S j) _ ds es).
    + replace (S j + k)%nat with (j + S k)%nat by lia. done.
    + cbn. rewrite Hd, insert_app_r_alt by (rewrite length_replicate; lia).
      rewrite length_replicate, Nat.sub_diag, app_comm_cons.
      rewrite replicate_cons_app, <- app_assoc. done.
    + cbn. rewrite He, insert_app_r_alt by (rewrite length_replicate; lia).
      rewrite length_replicate, Nat.sub_diag, app_comm_cons.
      rewrite replicate_cons_app, <- app_assoc. done.
    + simpl in Hld. lia.
    + simpl in Hle. lia.
Qed.
End init_loops.

(** Both loops together turn any board of the right dimensions into the
    board with no queen. *)
Lemma init_rows_cols n b :
  shape n b →
  for_range 0 n init_row_col b
  = Ok (set_col_is_free (set_solution b (replicate (Z.to_nat n) (-1)))
                        (replicate (Z.to_nat n) 1)).
Proof.
  intros [Hn Hsh Hs Hc Hd He]. unfold for_range.
  rewrite (init_row_col_loop _ 0 b (solution b) (col_is_free b));
    try done; try (rewrite ?Hs, ?Hc; f_equal; lia).
  cbn. by rewrite Z.sub_0_r.
Qed.

Lemma init_all_diags n b :
  length (diag45_is_free b) = Z.to_nat (2 * n - 1) →
  length (diag135_is_free b) = Z.to_nat (2 * n - 1) →
  for_range 0 (2 * n - 1) init_diags b
  = Ok (set_diag135_is_free
          (set_diag45_is_free b (replicate (Z.to_nat (2 * n - 1)) 1))
          (replicate (Z.to_nat (2 * n - 1)) 1)).
Proof.
  intros Hd He. unfold for_range.
  rewrite (init_diags_loop _ 0 _ (diag45_is_free b) (diag135_is_free b));
    try done; try (rewrite ?Hd, ?He; f_equal; lia).
  cbn. by rewrite Z.sub_0_r.
Qed.

Lemma create_board_fresh n : create_board n = Ok (fresh n).
Proof.
  unfold create_board. rewrite init_rows_cols.
  - cbn. rewrite init_all_diags; [done | |];
      cbn; unfold malloc; rewrite length_replicate; f_equal; lia.
  - split; cbn; unfold malloc; rewrite ?length_replicate; try done;
      f_equal; lia.
Qed.

Lemma reset_board_fresh n b : shape n b → reset_board b = Ok (fresh n).
Proof.
  intros Hb. unfold reset_board. rewrite (shape_size _ _ Hb).
  rewrite (init_rows_cols n) by done. destruct Hb as [Hn Hsh Hs Hc Hd He].
  cbn. rewrite Hn, init_all_diags by done.
  unfold fresh, set_diag135_is_free, set_diag45_is_free, set_col_is_free,
    set_solution. cbn. by rewrite Hn, Hsh.
Qed.

(** ** Placing and removing a queen *)

Lemma shape_inside n b x y : shape n b → 0 ≤ x < n → 0 ≤ y < n → inside b x y.
Proof.
  intros [Hn Hsh Hs Hc Hd He] Hx Hy. unfold inside, diag45_index, diag135_index.
  rewrite Hs, Hc, Hd, He, Hsh. lia.
Qed.

Lemma shape_put n b x y q c : shape n b → shape n (put b x y q c).
Proof.
  intros [Hn Hsh Hs Hc Hd He]. split; cbn; rewrite ?length_insert; done.
Qed.

(** Neither call assigns [size] or [shift_diag45]: the bound of a loop
    around them is the same at every iteration. *)
Lemma place_remove_keep_size b x y b' :
  place_queen b x y = Ok b' ∨ remove_queen b x y = Ok b' →
  size b' = size b ∧ shift_diag45 b' = shift_diag45 b.
Proof.
  unfold place_queen, remove_queen. intros [H|H];
    apply bind_Ok in H as (s & _ & H); apply bind_Ok in H as (c & _ & H);
    apply bind_Ok in H as (d & _ & H); apply bind_Ok in H as (e & _ & H);
    by injection H as <-.
Qed.

Lemma place_queen_inside b x y :
  inside b x y → place_queen b x y = Ok (put b x y x 0).
Proof.
  intros (Hy & Hx & Hd & He). unfold place_queen. by rewrite !wr_in_bounds.
Qed.

Lemma remove_queen_inside b x y :
  inside b x y → remove_queen b x y = Ok (put b x y (-1) 1).
Proof.
  intros (Hy & Hx & Hd & He). unfold remove_queen. by rewrite !wr_in_bounds.
Qed.

Lemma place_queen_Ok b x y b' :
  place_queen b x y = Ok b' → inside b x y ∧ b' = put b x y x 0.
Proof.
  unfold place_queen. intros H.
  apply bind_Ok in H as (s & [Hy ->]%wr_Ok & H).
  apply bind_Ok in H as (c & [Hx ->]%wr_Ok & H).
  apply bind_Ok in H as (d & [Hd ->]%wr_Ok & H).
  apply bind_Ok in H as (e & [He ->]%wr_Ok & H).
  injection H as <-. done.
Qed.

Lemma remove_queen_Ok b x y b' :
  remove_queen b x y = Ok b' → inside b x y ∧ b' = put b x y (-1) 1.
Proof.
  unfold remove_queen. intros H.
  apply bind_Ok in H as (s & [Hy ->]%wr_Ok & H).
  apply bind_Ok in H as (c & [Hx ->]%wr_Ok & H).
  apply bind_Ok in H as (d & [Hd ->]%wr_Ok & H).
  apply bind_Ok in H as (e & [He ->]%wr_Ok & H).
  injection H as <-. done.
Qed.

Lemma can_place_queen_inside b x y :
  inside b x y → ∃ c, can_place_queen b x y = Ok c.
Proof.
  intros (Hy & Hx & Hd & He). unfold can_place_queen.
  destruct (rd_in_bounds _ _ Hx) as [c ->].
  destruct (rd_in_bounds _ _ Hd) as [d ->].
  destruct (rd_in_bounds _ _ He) as [e ->]. cbn.
  destruct (c =? 0); [eauto|]. destruct (d =? 0); eauto.
Qed.

(** [can_place_queen] answers true exactly when the three cells are read
    and none is zero. *)
Lemma can_place_queen_true b x y :
  can_place_queen b x y = Ok true ↔
  ∃ c d e, rd (col_is_free b) x = Ok c ∧ c ≠ 0 ∧
           rd (diag45_is_free b) (diag45_index b x y) = Ok d ∧ d ≠ 0 ∧
           rd (diag135_is_free b) (diag135_index x y) = Ok e ∧ e ≠ 0.
Proof.
  unfold can_place_queen. split.
  - intros H. apply bind_Ok in H as (c & Hc & H).
    destruct (Z.eqb_spec c 0); [discriminate|].
    apply bind_Ok in H as (d & Hd & H).
    destruct (Z.eqb_spec d 0); [discriminate|].
    apply bind_Ok in H as (e & He & H).
    destruct (Z.eqb_spec e 0); [discriminate|]. by exists c, d, e.
  - intros (c & d & e & -> & Hc & -> & Hd & -> & He). cbn.
    destruct (Z.eqb_spec c 0); [done|]. destruct (Z.eqb_spec d 0); [done|].
    destruct (Z.eqb_spec e 0); done.
Qed.

(** It answers false exactly when the first cell read that decides is zero. *)
Lemma can_place_queen_false b x y :
  can_place_queen b x y = Ok false →
  rd (col_is_free b) x = Ok 0 ∨
  rd (diag45_is_free b) (diag45_index b x y) = Ok 0 ∨
  rd (diag135_is_free b) (diag135_index x y) = Ok 0.
Proof.
  unfold can_place_queen. intros H. apply bind_Ok in H as (c & Hc & H).
  destruct (Z.eqb_spec c 0) as [->|]; [by left|].
  apply bind_Ok in H as (d & Hd & H).
  destruct (Z.eqb_spec d 0) as [->|]; [by right; left|].
  apply bind_Ok in H as (e & He & H).
  destruct (Z.eqb_spec e 0) as [->|]; [by right; right|]. discriminate.
Qed.

(** ** Queens and the tracking arrays *)

Section tracking.
Implicit Types (a s : list Z) (P Q : Prop).

Lemma queen_row s y x : queen s y x → 0 ≤ y < Z.of_nat (length s).
Proof. intros [H _]. by apply rd_bounds in H. Qed.

Lemma queen_fun s y x x' : queen s y x → queen s y x' → x = x'.
Proof. intros [H _] [H' _]. congruence. Qed.

Lemma queen_place s y x :
  rd s y = Ok (-1) → x ≠ -1 → ∀ y' x',
  queen (<[Z.to_nat y := x]> s) y' x' ↔ (y' = y ∧ x' = x) ∨ queen s y' x'.
Proof.
  intros Hy Hx y' x'. pose proof (rd_bounds _ _ _ Hy) as Hb. unfold queen.
  destruct (decide (y' = y)) as [->|Hne].
  - rewrite rd_insert_eq by done. rewrite Hy. split.
    + intros [[= <-] _]. by left.
    + intros [[_ ->]|[[= <-] ?]]; done.
  - rewrite rd_insert_ne by lia. split; [by right|].
    intros [[? _]|?]; done.
Qed.

Lemma queen_remove s y x :
  queen s y x → ∀ y' x',
  queen (<[Z.to_nat y := -1]> s) y' x' ↔ y' ≠ y ∧ queen s y' x'.
Proof.
  intros Hq y' x'. pose proof (queen_row _ _ _ Hq) as Hb. unfold queen.
  destruct (decide (y' = y)) as [->|Hne].
  - rewrite rd_insert_eq by done. split.
    + intros [[= <-] ?]. done.
    + intros [? _]. done.
  - rewrite rd_insert_ne by lia. split; [done|]. by intros [_ ?].
Qed.

Lemma tracks_occupy a i j P Q :
  0 ≤ i < Z.of_nat (length a) →
  tracks a j P → (j = i → Q) → (j ≠ i → (P ↔ Q)) →
  tracks (<[Z.to_nat i := 0]> a) j Q.
Proof.
  intros Hi Ht Heq Hne. unfold tracks in *.
  destruct (decide (j = i)) as [->|Hji].
  - left. split; [auto|]. by apply rd_insert_eq.
  - rewrite rd_insert_ne by lia. rewrite <- (Hne Hji). done.
Qed.

Lemma tracks_release a i j P Q :
  0 ≤ i < Z.of_nat (length a) →
  tracks a j P → (j = i → ¬ Q) → (j ≠ i → (P ↔ Q)) →
  tracks (<[Z.to_nat i := 1]> a) j Q.
Proof.
  intros Hi Ht Heq Hne. unfold tracks in *.
  destruct (decide (j = i)) as [->|Hji].
  - right. split; [auto|]. by apply rd_insert_eq.
  - rewrite rd_insert_ne by lia. rewrite <- (Hne Hji). done.
Qed.

(** A cell that is read non-zero is free. *)
Lemma tracks_free a i P c :
  tracks a i P → rd a i = Ok c → c ≠ 0 → ¬ P ∧ c = 1.
Proof. intros [[_ H]|[HP H]] Hr Hc; split; congruence. Qed.

Lemma tracks_taken a i P : tracks a i P → rd a i = Ok 0 → P.
Proof. intros [[HP _]|[_ H]] Hr; [done | congruence]. Qed.
End tracking.

Lemma consistent_fresh n : consistent n (fresh n).
Proof.
  assert (Hq : ∀ y x, ¬ queen (solution (fresh n)) y x).
  { intros y x [H Hx]. cbn in H. by apply rd_replicate_inv in H. }
  split.
  - apply shape_fresh.
  - intros y x H. by apply Hq in H.
  - intros x Hx. right. split; [by intros [y H%Hq]|].
    apply rd_replicate. lia.
  - intros d Hd. right. split; [by intros (x & y & H%Hq & _)|].
    apply rd_replicate. lia.
  - intros d Hd. right. split; [by intros (x & y & H%Hq & _)|].
    apply rd_replicate. lia.
  - intros y1 y2 x1 x2 H. by apply Hq in H.
Qed.

(** Placing a queen on a free square of an empty row keeps the tracking
    arrays in step with [solution]. *)
Lemma consistent_place n b x y :
  consistent n b → 0 ≤ x < n → 0 ≤ y < n →
  rd (solution b) y = Ok (-1) →
  can_place_queen b x y = Ok true →
  consistent n (put b x y x 0).
Proof.
  intros [Hsh Hent Hcol Hd45 Hd135 Hsafe] Hx Hy Hrow Hcan.
  pose proof (shape_inside _ _ _ _ Hsh Hx Hy) as (Hiy & Hix & Hid & Hie).
  apply can_place_queen_true in Hcan
    as (c & d & e & Hc & Hc0 & Hd & Hd0 & He & He0).
  assert (Hshift : shift_diag45 b = n - 1) by apply Hsh.
  assert (Hxne : x ≠ -1) by lia.
  pose proof (queen_place _ _ _ Hrow Hxne) as Hq.
  destruct (tracks_free _ _ _ _ (Hcol x Hx) Hc Hc0) as [Hnc _].
  unfold diag45_index in Hd, Hid. rewrite Hshift in Hd, Hid.
  unfold diag135_index in He, Hie.
  assert (Hdr : 0 ≤ y - x + (n - 1) < 2 * n - 1) by lia.
  assert (Her : 0 ≤ y + x < 2 * n - 1) by lia.
  destruct (tracks_free _ _ _ _ (Hd45 _ Hdr) Hd Hd0) as [Hnd _].
  destruct (tracks_free _ _ _ _ (Hd135 _ Her) He He0) as [Hne _].
  split; cbn.
  - by apply shape_put.
  - intros y' x' [[-> ->]|H]%Hq; eauto.
  - intros x0 Hx0. eapply tracks_occupy; [done | apply (Hcol x0 Hx0) | |].
    + intros ->. exists y. apply Hq. by left.
    + intros Hne0. split.
      * intros [y' H]. exists y'. apply Hq. by right.
      * intros [y' [[_ ?]|H]%Hq]; [done | eauto].
  - intros d0 Hdd. unfold diag45_index. rewrite Hshift.
    eapply tracks_occupy; [done | apply (Hd45 d0 Hdd) | |].
    + intros ->. exists x, y. split; [|done]. apply Hq. by left.
    + intros Hne0. split.
      * intros (x' & y' & H & Hi). exists x', y'. split; [|done].
        apply Hq. by right.
      * intros (x' & y' & [[-> ->]|H]%Hq & Hi); [done | eauto].
  - intros d0 Hdd. unfold diag135_index.
    eapply tracks_occupy; [done | apply (Hd135 d0 Hdd) | |].
    + intros ->. exists x, y. split; [|done]. apply Hq. by left.
    + intros Hne0. split.
      * intros (x' & y' & H & Hi). exists x', y'. split; [|done].
        apply Hq. by right.
      * intros (x' & y' & [[-> ->]|H]%Hq & Hi); [done | eauto].
  - intros y1 y2 x1 x2 [[-> ->]|H1]%Hq [[-> ->]|H2]%Hq Hne12.
    + done.
    + repeat split; intros Heq.
      * apply Hnc. exists y2. by rewrite Heq.
      * apply Hnd. exists x2, y2. split; [done | lia].
      * apply Hne. exists x2, y2. split; [done | lia].
    + repeat split; intros Heq.
      * apply Hnc. exists y1. by rewrite <- Heq.
      * apply Hnd. exists x1, y1. split; [done | lia].
      * apply Hne. exists x1, y1. split; [done | lia].
    + by apply Hsafe.
Qed.

(** Removing the queen of row [y] keeps them in step as well. *)
Lemma consistent_remove n b x y :
  consistent n b → queen (solution b) y x →
  consistent n (put b x y (-1) 1).
Proof.
  intros [Hsh Hent Hcol Hd45 Hd135 Hsafe] Hqxy.
  pose proof (Hent _ _ Hqxy) as Hx.
  assert (Hy : 0 ≤ y < n).
  { apply queen_row in Hqxy. rewrite (shape_solution _ _ Hsh) in Hqxy. lia. }
  pose proof (shape_inside _ _ _ _ Hsh Hx Hy) as (Hiy & Hix & Hid & Hie).
  assert (Hshift : shift_diag45 b = n - 1) by apply Hsh.
  pose proof (queen_remove _ _ _ Hqxy) as Hq.
  unfold diag45_index in Hid. rewrite Hshift in Hid.
  unfold diag135_index in Hie.
  split; cbn.
  - by apply shape_put.
  - intros y' x' [_ H]%Hq. eauto.
  - intros x0 Hx0. eapply tracks_release; [done | apply (Hcol x0 Hx0) | |].
    + intros -> [y' [Hne H]%Hq].
      by destruct (Hsafe _ _ _ _ H Hqxy Hne) as (? & _).
    + intros Hne0. split.
      * intros [y' H]. exists y'. apply Hq. split; [|done].
        intros ->. apply Hne0. eapply queen_fun; eauto.
      * intros [y' [_ H]%Hq]. eauto.
  - intros d0 Hdd. unfold diag45_index. rewrite Hshift.
    eapply tracks_release; [done | apply (Hd45 d0 Hdd) | |].
    + intros -> (x' & y' & [Hne H]%Hq & Hi).
      destruct (Hsafe _ _ _ _ H Hqxy Hne) as (_ & ? & _). lia.
    + intros Hne0. split.
      * intros (x' & y' & H & Hi). exists x', y'. split; [|done].
        apply Hq. split; [|done]. intros ->.
        rewrite (queen_fun _ _ _ _ H Hqxy) in Hi. lia.
      * intros (x' & y' & [_ H]%Hq & Hi). eauto.
  - intros d0 Hdd. unfold diag135_index.
    eapply tracks_release; [done | apply (Hd135 d0 Hdd) | |].
    + intros -> (x' & y' & [Hne H]%Hq & Hi).
      destruct (Hsafe _ _ _ _ H Hqxy Hne) as (_ & _ & ?). lia.
    + intros Hne0. split.
      * intros (x' & y' & H & Hi). exists x', y'. split; [|done].
        apply Hq. split; [|done]. intros ->.
        rewrite (queen_fun _ _ _ _ H Hqxy) in Hi. lia.
      * intros (x' & y' & [_ H]%Hq & Hi). eauto.
  - intros y1 y2 x1 x2 [_ H1]%Hq [_ H2]%Hq Hne12. by apply Hsafe.
Qed.

Lemma consistent_lockstep n b : consistent n b → lockstep b.
Proof.
  intros [Hsh Hent Hcol Hd45 Hd135 Hsafe]. unfold lockstep.
  rewrite (shape_size _ _ Hsh). repeat split.
  - intros x Hx. destruct (Hcol x Hx) as [[[y Hq] Hr]|[Hn Hr]].
    + exists 0. split; [done|]. split; [|done]. intros _. exists y. apply Hq.
    + exists 1. split; [done|]. split; [done|]. intros [y Hy].
      destruct Hn. exists y. split; [done | lia].
  - intros d Hd. destruct (Hd45 d Hd) as [[HP Hr]|[Hn Hr]].
    + exists 0. by split.
    + exists 1. by split.
  - intros d Hd. destruct (Hd135 d Hd) as [[HP Hr]|[Hn Hr]].
    + exists 0. by split.
    + exists 1. by split.
Qed.

Lemma reachable_consistent n b : reachable place_pre_row n b → consistent n b.
Proof.
  induction 1 as [b Hb|b x y b' Hr IH Hpre Hp|b x y b' Hr IH Hpre Hp].
  - rewrite create_board_fresh in Hb. injection Hb as <-.
    apply consistent_fresh.
  - destruct Hpre as [(Hx & Hy & Hcan) Hrow].
    rewrite (shape_size _ _ (cons_shape _ _ IH)) in Hx, Hy.
    apply place_queen_Ok in Hp as [_ ->]. by apply consistent_place.
  - apply remove_queen_Ok in Hp as [_ ->]. by apply consistent_remove.
Qed.

(** * The claims *)

(** ** Tracking arrays and [solution] *)

(** C3, as stated: with [can_place_queen] as the only precondition of
    [place_queen] the lockstep is lost. On the board of size 2 a queen goes
    to (0, 0), a second one to (1, 0): [can_place_queen] allows it, as it
    never looks at the row. [solution[0]] now names column 1 only, yet the
    cell of column 0 stays occupied. *)
Lemma lockstep_lost_on_occupied_row :
  ∃ b, reachable place_pre 2 b ∧ ¬ lockstep b.
Proof.
  exists (put (put (fresh 2) 0 0 0 0) 1 0 1 0). split.
  - eapply (reach_place _ _ (put (fresh 2) 0 0 0 0) 1 0).
    + eapply (reach_place _ _ (fresh 2) 0 0).
      * by apply reach_create.
      * by vm_compute.
      * reflexivity.
    + by vm_compute.
    + reflexivity.
  - intros (Hcol & _). destruct (Hcol 0) as (c & Hc & Hiff).
    { cbn. lia. }
    vm_compute in Hc. injection Hc as <-.
    destruct Hiff as [Hy _]. destruct Hy as [y Hy]; [done|].
    apply rd_Ok in Hy as [Hy0 Hy]. cbn in Hy.
    destruct (Z.to_nat y) as [|[|[|k]]]; discriminate.
Qed.

(** C3, amended: when every [place_queen] is moreover on a row that holds
    no queen, every board reached from [create_board(n)] has its tracking
    arrays in lockstep with [solution]. *)
Theorem reachable_lockstep n b : reachable place_pre_row n b → lockstep b.
Proof.
  intros H. eapply consistent_lockstep, reachable_consistent, H.
Qed.

Lemma reachable_lockstep_witness :
  reachable place_pre_row 4 (put (fresh 4) 1 0 1 0) ∧
  lockstep (put (fresh 4) 1 0 1 0).
Proof.
  assert (H : reachable place_pre_row 4 (put (fresh 4) 1 0 1 0)).
  { eapply (reach_place _ _ (fresh 4) 1 0).
    - by apply reach_create.
    - by vm_compute.
    - reflexivity. }
  split; [exact H | exact (reachable_lockstep 4 _ H)].
Defined.

(** ** Construction with a non-positive size *)

(** C4, as stated: [create_board(-1)] is not rejected. It returns a board
    whose arrays have no cell, and the first use of that board,
    [is_valid], reads [solution[-2]]. *)
Lemma create_board_negative_accepted :
  create_board (-1) = Ok (mkBoard (-1) (-2) [] [] [] []) ∧
  is_valid (mkBoard (-1) (-2) [] [] [] []) = OutOfBounds ∧
  ∀ rs, backtrack 1 0 (start rs (mkBoard (-1) (-2) [] [] [] [])) = OutOfBounds.
Proof. repeat split. Qed.

(** C4, amended: for every size that is not positive, and above
    [- max_size] so that [size * 2 - 1] and [size - 1] are values of
    [int], [create_board] returns a board with that size, with no cell in
    any of its four arrays, and [is_valid] on it reads out of bounds. *)
Theorem create_board_non_positive n :
  - max_size < n ≤ 0 →
  in_int (n * 2) ∧ in_int (n * 2 - 1) ∧ in_int (n - 1) ∧
  create_board n = Ok (mkBoard n (n - 1) [] [] [] []) ∧
  is_valid (mkBoard n (n - 1) [] [] [] []) = OutOfBounds.
Proof.
  intros Hn.
  split; [unfold in_int, INT_MIN, INT_MAX, max_size in *; lia|].
  split; [unfold in_int, INT_MIN, INT_MAX, max_size in *; lia|].
  split; [unfold in_int, INT_MIN, INT_MAX, max_size in *; lia|].
  split.
  - rewrite create_board_fresh. unfold fresh.
    by replace (Z.to_nat n) with 0%nat by lia;
       replace (Z.to_nat (2 * n - 1)) with 0%nat by lia.
  - unfold is_valid. cbn. rewrite rd_out_of_bounds; [done | cbn; lia].
Qed.

Lemma create_board_non_positive_witness :
  in_int (-5 * 2) ∧ in_int (-5 * 2 - 1) ∧ in_int (-5 - 1) ∧
  create_board (-5) = Ok (mkBoard (-5) (-5 - 1) [] [] [] []) ∧
  is_valid (mkBoard (-5) (-5 - 1) [] [] [] []) = OutOfBounds.
Proof. apply (create_board_non_positive (-5)). unfold max_size. lia. Defined.

(** ** Array bounds *)

(** C10: on a board of size [n], at most [max_size], for a column and a
    row between 0 and [n - 1], both derived diagonal indices lie between
    0 and [2 * n - 2] and are values of [int], as is [y - x]; the four
    cells of the square exist, and [can_place_queen], [place_queen] and
    [remove_queen] complete without an access out of bounds, leaving a
    board of size [n]. *)
Theorem placement_in_bounds n b x y :
  shape n b → n ≤ max_size → 0 ≤ x < n → 0 ≤ y < n →
  0 ≤ diag45_index b x y ≤ 2 * n - 2 ∧
  0 ≤ diag135_index x y ≤ 2 * n - 2 ∧
  (in_int (y - x) ∧ in_int (diag45_index b x y) ∧
   in_int (diag135_index x y)) ∧
  inside b x y ∧
  (∃ c, can_place_queen b x y = Ok c) ∧
  (∃ b', place_queen b x y = Ok b' ∧ shape n b') ∧
  (∃ b', remove_queen b x y = Ok b' ∧ shape n b').
Proof.
  intros Hsh Hmax Hx Hy. pose proof (shape_inside _ _ _ _ Hsh Hx Hy) as Hin.
  assert (H45 : 0 ≤ diag45_index b x y ≤ 2 * n - 2).
  { unfold diag45_index. rewrite (shape_shift _ _ Hsh). lia. }
  assert (H135 : 0 ≤ diag135_index x y ≤ 2 * n - 2).
  { unfold diag135_index. lia. }
  split; [done|]. split; [done|]. split.
  { unfold in_int, INT_MIN, INT_MAX, max_size in *. lia. }
  split; [done|]. split; [by apply can_place_queen_inside|]. split.
  - exists (put b x y x 0). split; [by apply place_queen_inside|].
    by apply shape_put.
  - exists (put b x y (-1) 1). split; [by apply remove_queen_inside|].
    by apply shape_put.
Qed.

Lemma placement_in_bounds_witness :
  0 ≤ diag45_index (fresh 8) 7 0 ≤ 2 * 8 - 2 ∧
  0 ≤ diag135_index 7 0 ≤ 2 * 8 - 2 ∧
  (in_int (0 - 7) ∧ in_int (diag45_index (fresh 8) 7 0) ∧
   in_int (diag135_index 7 0)) ∧
  inside (fresh 8) 7 0 ∧
  (∃ c, can_place_queen (fresh 8) 7 0 = Ok c) ∧
  (∃ b', place_queen (fresh 8) 7 0 = Ok b' ∧ shape 8 b') ∧
  (∃ b', remove_queen (fresh 8) 7 0 = Ok b' ∧ shape 8 b').
Proof.
  apply (placement_in_bounds 8 (fresh 8) 7 0);
    [split; reflexivity | unfold max_size; lia | lia | lia].
Defined.

(** ** Unwinding *)

Section unwind.
Lemma insert_same_commute (l : list Z) (i j : nat) (v : Z) :
  <[i:=v]> (<[j:=v]> l) = <[j:=v]> (<[i:=v]> l).
Proof.
  destruct (decide (i = j)) as [->|Hne]; [done|].
  by apply list_insert_insert_ne.
Qed.

Lemma put_put b x y q c q' c' : put (put b x y q c) x y q' c' = put b x y q' c'.
Proof. unfold put, diag45_index. cbn. by rewrite !list_insert_insert_eq. Qed.

Lemma wipe_commute b q q' : wipe (wipe b q) q' = wipe (wipe b q') q.
Proof.
  unfold wipe, put, diag45_index. cbn. f_equal; apply insert_same_commute.
Qed.

Lemma wipe_all_wipe pending b q :
  wipe_all pending (wipe b q) = wipe (wipe_all pending b) q.
Proof.
  revert b. induction pending as [|p pending IH]; intros b; [done|].
  cbn. rewrite <- IH. f_equal. apply wipe_commute.
Qed.

Lemma wipe_fresh n q : wipe (fresh n) q = fresh n.
Proof. unfold wipe, put, fresh. cbn. by rewrite !insert_replicate. Qed.

Lemma unwind_pending n ops : ∀ pending b,
  shape n b →
  Forall (λ q, 0 ≤ q.1 < n ∧ 0 ≤ q.2 < n) pending →
  on_board n ops →
  well_nested pending ops = true →
  wipe_all pending b = fresh n →
  run_ops ops b = Ok (fresh n).
Proof.
  induction ops as [|[x y|x y] ops IH]; intros pending b Hsh Hpend Hon Hwn Hw.
  - destruct pending; [|discriminate]. cbn in *. by subst.
  - destruct (Hon x y) as [Hx Hy]; [by left|].
    cbn. rewrite place_queen_inside by eauto using shape_inside. cbn.
    apply (IH ((x, y) :: pending)).
    + by apply shape_put.
    + by constructor.
    + intros x' y' Hin. apply Hon. by right.
    + done.
    + cbn. unfold wipe at 2. cbn. rewrite put_put.
      change (put b x y (-1) 1) with (wipe b (x, y)).
      by rewrite wipe_all_wipe, Hw, wipe_fresh.
  - cbn in Hwn. destruct pending as [|[x' y'] pending]; [discriminate|].
    apply andb_prop in Hwn as [Hxy Hwn]. apply andb_prop in Hxy as [Hx Hy].
    apply Z.eqb_eq in Hx as <-. apply Z.eqb_eq in Hy as <-.
    apply Forall_cons in Hpend as [[Hx Hy] Hpend]. cbn in Hx, Hy.
    cbn. rewrite remove_queen_inside by eauto using shape_inside. cbn.
    apply (IH pending).
    + by apply shape_put.
    + done.
    + intros x' y' Hin. apply Hon. by right.
    + done.
    + exact Hw.
Qed.
End unwind.

(** C6: a well-nested sequence of [place_queen] and [remove_queen] calls
    on squares of the board, run on the board [create_board(n)] returns,
    completes and leaves that very board, equal in all six fields. The
    precondition [can_place_queen] of [place_queen] is not needed for it. *)
Theorem unwind_restores_fresh n ops b0 :
  create_board n = Ok b0 →
  on_board n ops →
  well_nested [] ops = true →
  run_ops ops b0 = Ok b0.
Proof.
  rewrite create_board_fresh. intros [= <-] Hon Hwn.
  apply (unwind_pending n ops [] (fresh n)); try done.
  apply shape_fresh.
Qed.

Lemma unwind_restores_fresh_witness :
  run_ops [Place 1 0; Place 3 1; Remove 3 1; Place 0 1; Remove 0 1; Remove 1 0]
          (fresh 4)
  = Ok (fresh 4).
Proof.
  apply (unwind_restores_fresh 4).
  - reflexivity.
  - intros x y Hin. cbn in Hin.
    repeat (destruct Hin as [Heq|Hin];
            [try discriminate; injection Heq as <- <-; lia|]).
    done.
  - reflexivity.
Defined.

(** ** Running programs *)

Section running.
Context {A B : Type}.
Implicit Types (w : World) (g : A → M B).

Lemma bind_run (m : M A) g w a w' : m w = Ok (a, w') → bind m g w = g a w'.
Proof. unfold bind. by intros ->. Qed.

Lemma bind_query (f : Board → res A) g w a :
  f (board w) = Ok a → bind (query f) g w = g a w.
Proof. intros H. apply bind_run. unfold query. by rewrite H. Qed.

Lemma bind_lift (r : res A) g w a : r = Ok a → bind (lift r) g w = g a w.
Proof. intros ->. by apply bind_run. Qed.

Lemma bind_ret (a : A) g w : bind (ret a) g w = g a w.
Proof. by apply bind_run. Qed.
End running.

Lemma bind_assoc {A B C : Type} (m : M A) (f : A → M B) (g : B → M C) w :
  bind (bind m f) g w = bind m (λ a, bind (f a) g) w.
Proof. unfold bind. by destruct (m w) as [[a w']| |]. Qed.

Lemma bind_ext {A B : Type} (m : M A) (f f' : A → M B) w :
  (∀ a w', f a w' = f' a w') → bind m f w = bind m f' w.
Proof. intros H. unfold bind. by destruct (m w) as [[a w']| |]. Qed.

Lemma bind_update {B : Type} (f : Board → res Board) (g : unit → M B) w b :
  f (board w) = Ok b →
  bind (update f) g w
  = g tt (mkWorld b (rand_src w) (rand_calls w) (b :: visited w)).
Proof. intros H. apply bind_run. unfold update. by rewrite H. Qed.

Lemma bind_rand {B : Type} (g : Z → M B) w :
  bind rand g w
  = g (Z.of_N (rand_src w (rand_calls w)))
      (mkWorld (board w) (rand_src w) (S (rand_calls w)) (visited w)).
Proof. by apply bind_run. Qed.

(** ** Search states *)

Lemma evolves_refl n w : evolves n w w.
Proof. split; [done|]. exists []. by split. Qed.

Lemma evolves_trans n w1 w2 w3 :
  evolves n w1 w2 → evolves n w2 w3 → evolves n w1 w3.
Proof.
  intros [Hr1 (l1 & Hv1 & Hl1)] [Hr2 (l2 & Hv2 & Hl2)]. split; [congruence|].
  exists (l2 ++ l1). split.
  - by rewrite Hv2, Hv1, app_assoc.
  - by apply Forall_app.
Qed.

Lemma evolves_visit n y w b :
  search_state n y b →
  evolves n w (mkWorld b (rand_src w) (rand_calls w) (b :: visited w)).
Proof.
  intros Hb. split; [done|]. exists [b]. split; [done|].
  constructor; [by exists y | constructor].
Qed.

Lemma agree_refl y s : agree y s s.
Proof. by intros i Hi. Qed.

Lemma agree_trans y s1 s2 s3 : agree y s1 s2 → agree y s2 s3 → agree y s1 s3.
Proof. intros H1 H2 i Hi. by rewrite H2, H1. Qed.

Lemma agree_weaken y y' s s' : y ≤ y' → agree y' s s' → agree y s s'.
Proof. intros Hy H i Hi. apply H. lia. Qed.

Lemma agree_insert y s v : agree y s (<[Z.to_nat y := v]> s).
Proof.
  intros i Hi. destruct (decide (0 ≤ y)); [|lia]. apply rd_insert_ne; lia.
Qed.

Lemma search_state_empty_row n y b :
  search_state n y b → y < n → rd (solution b) y = Ok (-1).
Proof. intros (_ & Hy & Hrows) Hlt. apply (Hrows y); lia. Qed.

(** Every queen of a search state stands in a row below [y]. *)
Lemma search_state_queen_below n y b y0 x0 :
  search_state n y b → queen (solution b) y0 x0 → 0 ≤ y0 < y.
Proof.
  intros (Hc & Hy & Hrows) Hq. pose proof (queen_row _ _ _ Hq) as Hb.
  rewrite (shape_solution _ _ (cons_shape _ _ Hc)) in Hb.
  destruct (decide (y0 < y)); [lia|].
  destruct (Hrows y0) as [_ Hempty]; [lia|].
  destruct Hq as [Hq Hne]. rewrite Hempty in Hq; [congruence | lia].
Qed.

(** A placement allowed by [can_place_queen] leads to the next state. *)
Lemma search_state_place n y b x :
  search_state n y b → y < n → 0 ≤ x < n →
  can_place_queen b x y = Ok true →
  search_state n (y + 1) (put b x y x 0).
Proof.
  intros Hst Hlt Hx Hcan. pose proof (search_state_empty_row _ _ _ Hst Hlt) as He.
  destruct Hst as (Hc & Hy & Hrows). split; [|split].
  - apply consistent_place; try done. lia.
  - lia.
  - assert (Hxne : x ≠ -1) by lia. pose proof (queen_place _ _ _ He Hxne) as Hq.
    intros i Hi. cbn. split.
    + intros Hiy. destruct (decide (i = y)) as [->|Hne].
      * exists x. apply Hq. by left.
      * destruct (Hrows i Hi) as [[x0 Hx0] _]; [lia|].
        exists x0. apply Hq. by right.
    + intros Hiy. rewrite rd_insert_ne by lia. apply (Hrows i Hi). lia.
Qed.

(** Undoing that placement gives the board back. *)
Lemma place_remove n y b x :
  search_state n y b → y < n → 0 ≤ x < n →
  can_place_queen b x y = Ok true →
  put (put b x y x 0) x y (-1) 1 = b.
Proof.
  intros Hst Hlt Hx Hcan. pose proof (search_state_empty_row _ _ _ Hst Hlt) as He.
  destruct Hst as ([Hsh Hent Hcol Hd45 Hd135 Hsafe] & Hy & Hrows).
  apply can_place_queen_true in Hcan
    as (c & d & e & Hc & Hc0 & Hd & Hd0 & Hee & He0).
  assert (Hdr : 0 ≤ diag45_index b x y < 2 * n - 1).
  { unfold diag45_index. rewrite (shape_shift _ _ Hsh). lia. }
  assert (Her : 0 ≤ diag135_index x y < 2 * n - 1).
  { unfold diag135_index. lia. }
  destruct (tracks_free _ _ _ _ (Hcol x Hx) Hc Hc0) as [_ ->].
  destruct (tracks_free _ _ _ _ (Hd45 _ Hdr) Hd Hd0) as [_ ->].
  destruct (tracks_free _ _ _ _ (Hd135 _ Her) Hee He0) as [_ ->].
  rewrite put_put. destruct b. unfold put, diag45_index in *. cbn in *.
  apply rd_Ok in He as [_ He], Hc as [_ Hc], Hd as [_ Hd], Hee as [_ Hee].
  f_equal; by apply list_insert_id.
Qed.

Lemma search_state_full n b : search_state n n b → is_solution n (solution b).
Proof.
  intros (Hc & Hy & Hrows). split; [|split].
  - apply Hc.
  - intros y Hy'. destruct (Hrows y Hy') as [[x Hq] _]; [lia|].
    exists x. split; [apply Hq|]. by apply (cons_entries _ _ Hc y).
  - apply Hc.
Qed.

(** When [can_place_queen] refuses the square [(x, y)], no solution that
    has the queens of the board has a queen there. *)
Lemma refused_square n y b x s :
  search_state n y b → y < n → 0 ≤ x < n →
  can_place_queen b x y = Ok false →
  is_solution n s → agree y (solution b) s → rd s y ≠ Ok x.
Proof.
  intros Hst Hlt Hx Hcan (_ & _ & Hsafe) Hag Hsy.
  assert (Hq : queen s y x) by (split; [done | lia]).
  assert (Hold : ∀ y0 x0, queen (solution b) y0 x0 → queen s y0 x0 ∧ y0 ≠ y).
  { intros y0 x0 H0. pose proof (search_state_queen_below _ _ _ _ _ Hst H0).
    split; [|lia]. destruct H0 as [H0 Hne]. split; [|done].
    rewrite Hag; [done | lia]. }
  pose proof Hst as ([Hsh Hent Hcol Hd45 Hd135 _] & Hy & _).
  assert (Hdr : 0 ≤ diag45_index b x y < 2 * n - 1).
  { unfold diag45_index. rewrite (shape_shift _ _ Hsh). lia. }
  assert (Her : 0 ≤ diag135_index x y < 2 * n - 1).
  { unfold diag135_index. lia. }
  apply can_place_queen_false in Hcan as [Hz|[Hz|Hz]].
  - destruct (tracks_taken _ _ _ (Hcol x Hx) Hz) as [y0 H0].
    destruct (Hold _ _ H0) as [H0s Hne].
    by destruct (Hsafe _ _ _ _ H0s Hq Hne) as (? & _).
  - destruct (tracks_taken _ _ _ (Hd45 _ Hdr) Hz) as (x0 & y0 & H0 & Hi).
    destruct (Hold _ _ H0) as [H0s Hne].
    destruct (Hsafe _ _ _ _ H0s Hq Hne) as (_ & ? & _).
    unfold diag45_index in Hi. rewrite (shape_shift _ _ Hsh) in Hi. lia.
  - destruct (tracks_taken _ _ _ (Hd135 _ Her) Hz) as (x0 & y0 & H0 & Hi).
    destruct (Hold _ _ H0) as [H0s Hne].
    destruct (Hsafe _ _ _ _ H0s Hq Hne) as (_ & _ & ?).
    unfold diag135_index in Hi. lia.
Qed.

(** With the rows filled in order, the last row tells whether all are. *)
Lemma is_valid_row_order n y b :
  0 < n → shape n b → 0 ≤ y ≤ n → row_order n y (solution b) →
  is_valid b = Ok (bool_decide (y = n)).
Proof.
  intros Hn Hsh Hy Hrows. unfold is_valid. rewrite (shape_size _ _ Hsh).
  destruct (Hrows (n - 1)) as [Hfull Hempty]; [lia|].
  case_bool_decide as Hyn.
  - destruct Hfull as [x [-> Hx]]; [lia|]. cbn.
    by destruct (Z.eqb_spec x (-1)).
  - rewrite Hempty by lia. done.
Qed.

Lemma is_valid_search_state n y b :
  0 < n → search_state n y b → is_valid b = Ok (bool_decide (y = n)).
Proof.
  intros Hn (Hc & Hy & Hrows). apply is_valid_row_order; try done. apply Hc.
Qed.

(** ** Backtracking *)

Section backtracking.
Variable n : Z.
Hypothesis n_pos : 0 < n.

(** The loop over the columns of row [y], given a recursive call that
    meets its contract on row [y + 1]. *)
Lemma backtrack_cols_spec (rec : M bool) (y : Z) :
  0 ≤ y < n →
  (∀ w1, search_state n (y + 1) (board w1) →
     ∃ r w', rec w1 = Ok (r, w') ∧ backtrack_post n (y + 1) w1 r w') →
  ∀ (k : nat) (x : Z) (w : World),
    Z.of_nat k = n - x → 0 ≤ x →
    search_state n y (board w) →
    ∃ r w', backtrack_cols rec k x y w = Ok (r, w') ∧
      evolves n w w' ∧ rand_calls w' = rand_calls w ∧
      if r : bool then
        search_state n n (board w') ∧
        agree y (solution (board w)) (solution (board w'))
      else
        board w' = board w ∧
        ∀ s, is_solution n s → agree y (solution (board w)) s →
             ∀ x', x ≤ x' < n → rd s y ≠ Ok x'.
Proof.
  intros Hy Hrec. induction k as [|k IH]; intros x w Hk Hx Hst.
  - exists false, w. split; [done|]. split; [apply evolves_refl|].
    split; [done|]. split; [done|]. intros s _ _ x' Hx'. lia.
  - assert (Hxn : 0 ≤ x < n) by lia.
    pose proof Hst as (Hc & _ & _).
    pose proof (shape_inside _ _ _ _ (cons_shape _ _ Hc) Hxn Hy) as Hin.
    destruct (can_place_queen_inside _ _ _ Hin) as [c Hcan].
    cbn [backtrack_cols]. rewrite (bind_query _ _ _ c) by done.
    destruct c.
    + (* the square is free: place, recurse *)
      rewrite (bind_update _ _ _ (put (board w) x y x 0))
        by (by apply place_queen_inside).
      set (w1 := mkWorld (put (board w) x y x 0) _ _ _).
      assert (Hst1 : search_state n (y + 1) (board w1)).
      { apply search_state_place; [done | lia | done | done]. }
      destruct (Hrec w1 Hst1) as (r1 & w2 & Hrun & Hev & Hrc & Hpost).
      rewrite (bind_run _ _ _ _ _ Hrun).
      assert (Hev1 : evolves n w w1) by (by eapply evolves_visit).
      destruct r1.
      * exists true, w2. split; [done|]. destruct Hpost as [Hfull Hag].
        split; [by eapply evolves_trans|]. split; [done|]. split; [done|].
        eapply agree_trans; [apply agree_insert|].
        eapply agree_weaken; [|exact Hag]. lia.
      * destruct Hpost as [Hb2 Hnone].
        assert (Hback : remove_queen (board w2) x y = Ok (board w)).
        { rewrite Hb2. unfold w1. cbn [board].
          rewrite remove_queen_inside.
          - f_equal. eapply place_remove; eauto; lia.
          - eapply shape_inside; eauto using shape_put, cons_shape. }
        rewrite (bind_update _ _ _ (board w)) by done.
        set (w3 := mkWorld (board w) _ _ _).
        destruct (IH (x + 1) w3) as (r & w' & Hloop & Hev3 & Hrc3 & Hpost);
          [lia | lia | done |].
        exists r, w'. split; [done|].
        assert (Hev' : evolves n w w').
        { eapply evolves_trans; [exact Hev1|].
          eapply evolves_trans; [exact Hev|].
          eapply evolves_trans; [|exact Hev3].
          by eapply evolves_visit. }
        split; [done|]. split; [by rewrite Hrc3; cbn; rewrite Hrc|].
        destruct r; [done|]. destruct Hpost as [Hb' Hno].
        split; [done|]. intros s Hs Hag x' Hx' Hsy.
        destruct (decide (x' = x)) as [->|Hne].
        -- apply (Hnone s Hs). intros i Hi. unfold w1. cbn [board solution put].
           destruct (decide (i = y)) as [->|Hiy].
           ++ rewrite rd_insert_eq; [done|].
              rewrite (shape_solution _ _ (cons_shape _ _ Hc)). lia.
           ++ rewrite rd_insert_ne by lia. apply Hag. lia.
        -- apply (Hno s Hs Hag x'); [lia | done].
    + (* the square is taken: next column *)
      destruct (IH (x + 1) w) as (r & w' & Hloop & Hev & Hrc & Hpost);
        [lia | lia | done |].
      exists r, w'. split; [done|]. split; [done|]. split; [done|].
      destruct r; [done|]. destruct Hpost as [Hb' Hno].
      split; [done|]. intros s Hs Hag x' Hx' Hsy.
      destruct (decide (x' = x)) as [->|Hne].
      * eapply refused_square; eauto. lia.
      * apply (Hno s Hs Hag x'); [lia | done].
Qed.

(** [backtrack] from a search state at row [y] returns when given more
    fuel than there are rows left. It answers true on a full board that
    has the queens it started from, and false, on the board it started
    from, only if no solution has these queens. *)
Lemma backtrack_spec (fuel : nat) : ∀ (y : Z) (w : World),
  search_state n y (board w) →
  (Z.to_nat (n - y) < fuel)%nat →
  ∃ r w', backtrack fuel y w = Ok (r, w') ∧ backtrack_post n y w r w'.
Proof.
  induction fuel as [|fuel IH]; intros y w Hst Hfuel; [lia|].
  cbn [backtrack].
  rewrite (bind_query _ _ _ _ (is_valid_search_state _ _ _ n_pos Hst)).
  pose proof Hst as (Hc & Hy & Hrows).
  case_bool_decide as Hyn.
  - subst y. exists true, w. split; [done|]. split; [apply evolves_refl|].
    split; [done|]. split; [done|]. apply agree_refl.
  - rewrite (bind_query _ _ _ n)
      by (by rewrite (shape_size _ _ (cons_shape _ _ Hc))).
    destruct (backtrack_cols_spec (backtrack fuel (y + 1)) y) with
      (k := Z.to_nat (n - 0)) (x := 0) (w := w)
      as (r & w' & Hrun & Hev & Hrc & Hpost); try done; try lia.
    { intros w1 Hst1. apply IH; [done | lia]. }
    exists r, w'. split; [done|]. split; [done|]. split; [done|].
    destruct r; [done|]. destruct Hpost as [Hb Hno]. split; [done|].
    intros s Hs Hag. pose proof Hs as (_ & Hfull & _).
    destruct (Hfull y) as (x & Hsy & Hx); [lia|].
    apply (Hno s Hs Hag x); [lia | done].
Qed.
End backtracking.

(** ** More fuel changes no result *)

Lemma bind_inv {A B : Type} (m : M A) (g : A → M B) w v :
  bind m g w = Ok v → ∃ a w', m w = Ok (a, w') ∧ g a w' = Ok v.
Proof.
  unfold bind. destruct (m w) as [[a w']| |]; [eauto | done | done].
Qed.

Lemma refines_refl {A : Type} (m : M A) : refines m m.
Proof. by intros w v. Qed.

Lemma refines_bind {A B : Type} (m m' : M A) (g g' : A → M B) :
  refines m m' → (∀ a, refines (g a) (g' a)) →
  refines (bind m g) (bind m' g').
Proof.
  intros Hm Hg w v (a & w' & Hrun & Hk)%bind_inv.
  rewrite (bind_run _ _ _ _ _ (Hm _ _ Hrun)). by apply Hg.
Qed.

Lemma backtrack_cols_refines (rec rec' : M bool) (k : nat) : ∀ x y,
  refines rec rec' →
  refines (backtrack_cols rec k x y) (backtrack_cols rec' k x y).
Proof.
  induction k as [|k IH]; intros x y Hrec; [apply refines_refl|].
  cbn [backtrack_cols]. apply refines_bind; [apply refines_refl|].
  intros [|]; [|by apply IH].
  apply refines_bind; [apply refines_refl|]. intros _.
  apply refines_bind; [done|]. intros [|]; [apply refines_refl|].
  apply refines_bind; [apply refines_refl|]. intros _. by apply IH.
Qed.

Lemma backtrack_fuel_S (fuel : nat) : ∀ y,
  refines (backtrack fuel y) (backtrack (S fuel) y).
Proof.
  induction fuel as [|fuel IH]; intros y; [by intros w v|].
  change (backtrack (S fuel) y) with
    (bind (query is_valid) (λ v : bool,
       if v then ret true
       else bind (query (λ b, Ok (size b))) (λ n,
         backtrack_cols (backtrack fuel (y + 1)) (Z.to_nat (n - 0)) 0 y))).
  change (backtrack (S (S fuel)) y) with
    (bind (query is_valid) (λ v : bool,
       if v then ret true
       else bind (query (λ b, Ok (size b))) (λ n,
         backtrack_cols (backtrack (S fuel) (y + 1)) (Z.to_nat (n - 0)) 0 y))).
  apply refines_bind; [apply refines_refl|]. intros [|]; [apply refines_refl|].
  apply refines_bind; [apply refines_refl|]. intros m.
  apply backtrack_cols_refines, IH.
Qed.

Lemma backtrack_fuel_le (fuel fuel' : nat) y :
  (fuel ≤ fuel')%nat → refines (backtrack fuel y) (backtrack fuel' y).
Proof.
  induction 1 as [|fuel' Hle IH]; [apply refines_refl|].
  intros w v Hv. by apply backtrack_fuel_S, IH.
Qed.

Lemma solve_lv_fuel_le (fuel fuel' : nat) k :
  (fuel ≤ fuel')%nat → refines (solve_lv fuel k) (solve_lv fuel' k).
Proof.
  intros Hle. unfold solve_lv.
  apply refines_bind; [apply refines_refl|]. intros m.
  apply refines_bind; [apply refines_refl|]. intros [[r|] a]; cbn.
  - apply refines_refl.
  - by apply backtrack_fuel_le.
Qed.

Lemma repeat_lv_loop_fuel_S (fuel : nat) : ∀ k t,
  refines (repeat_lv_loop fuel k t) (repeat_lv_loop (S fuel) k t).
Proof.
  induction fuel as [|fuel IH]; intros k t; [by intros w v|].
  change (repeat_lv_loop (S fuel) k t) with
    (bind (update reset_board) (λ _,
       bind (solve_lv fuel k) (λ found : bool,
         if found then ret (t + 1) else repeat_lv_loop fuel k (t + 1)))).
  change (repeat_lv_loop (S (S fuel)) k t) with
    (bind (update reset_board) (λ _,
       bind (solve_lv (S fuel) k) (λ found : bool,
         if found then ret (t + 1) else repeat_lv_loop (S fuel) k (t + 1)))).
  apply refines_bind; [apply refines_refl|]. intros _.
  apply refines_bind; [apply solve_lv_fuel_le; lia|].
  intros [|]; [apply refines_refl | apply IH].
Qed.

Lemma repeat_lv_fuel_le (fuel fuel' : nat) k :
  (fuel ≤ fuel')%nat → refines (repeat_lv fuel k) (repeat_lv fuel' k).
Proof.
  unfold repeat_lv. induction 1 as [|fuel' Hle IH]; [apply refines_refl|].
  intros w v Hv. by apply repeat_lv_loop_fuel_S, IH.
Qed.

(** ** Termination of the backtracking *)

Section termination.
Variable n : Z.
Hypothesis n_pos : 0 < n.

Lemma row_order_place y s x :
  0 ≤ y < n → 0 ≤ x → Z.of_nat (length s) = n →
  row_order n y s → row_order n (y + 1) (<[Z.to_nat y := x]> s).
Proof.
  intros Hy Hx Hlen Hrows i Hi. split.
  - intros Hiy. destruct (decide (i = y)) as [->|Hne].
    + exists x. split; [|lia]. apply rd_insert_eq. lia.
    + destruct (Hrows i Hi) as [[x0 [Hx0 Hx0ne]] _]; [lia|].
      exists x0. split; [|done]. by rewrite rd_insert_ne by lia.
  - intros Hiy. rewrite rd_insert_ne by lia. apply (Hrows i Hi). lia.
Qed.

Lemma backtrack_cols_total (rec : M bool) (y : Z) :
  0 ≤ y < n →
  (∀ w1, shape n (board w1) → row_order n (y + 1) (solution (board w1)) →
     ∃ r w', rec w1 = Ok (r, w') ∧ shape n (board w') ∧
       (r = false → solution (board w') = solution (board w1))) →
  ∀ (k : nat) (x : Z) (w : World),
    Z.of_nat k = n - x → 0 ≤ x →
    shape n (board w) → row_order n y (solution (board w)) →
    ∃ r w', backtrack_cols rec k x y w = Ok (r, w') ∧ shape n (board w') ∧
      (r = false → solution (board w') = solution (board w)).
Proof.
  intros Hy Hrec. induction k as [|k IH]; intros x w Hk Hx Hsh Hrows.
  - by exists false, w.
  - assert (Hxn : 0 ≤ x < n) by lia.
    pose proof (shape_inside _ _ _ _ Hsh Hxn Hy) as Hin.
    destruct (can_place_queen_inside _ _ _ Hin) as [c Hcan].
    cbn [backtrack_cols]. rewrite (bind_query _ _ _ c) by done.
    destruct c; [|apply IH; try done; lia].
    rewrite (bind_update _ _ _ (put (board w) x y x 0))
      by (by apply place_queen_inside).
    set (w1 := mkWorld (put (board w) x y x 0) _ _ _).
    destruct (Hrec w1) as (r1 & w2 & Hrun & Hsh2 & Hsol2).
    { by apply shape_put. }
    { apply row_order_place; [done | lia | | done].
      rewrite (shape_solution _ _ Hsh). lia. }
    rewrite (bind_run _ _ _ _ _ Hrun).
    destruct r1; [by exists true, w2|].
    rewrite (bind_update _ _ _ (put (board w2) x y (-1) 1))
      by (apply remove_queen_inside; by eapply shape_inside).
    set (w3 := mkWorld (put (board w2) x y (-1) 1) _ _ _).
    assert (Hsol3 : solution (board w3) = solution (board w)).
    { cbn. rewrite Hsol2 by done. cbn. rewrite list_insert_insert_eq.
      apply list_insert_id. destruct (Hrows y) as [_ He]; [lia|].
      apply rd_Ok in He; [|lia]. apply He. }
    destruct (IH (x + 1) w3) as (r & w' & Hloop & Hsh' & Hsol'); try lia.
    { by apply shape_put. }
    { by rewrite Hsol3. }
    exists r, w'. split; [done|]. split; [done|].
    intros Hr. by rewrite Hsol', Hsol3.
Qed.

Lemma backtrack_total (fuel : nat) : ∀ (y : Z) (w : World),
  shape n (board w) → 0 ≤ y ≤ n → row_order n y (solution (board w)) →
  (Z.to_nat (n - y) < fuel)%nat →
  ∃ r w', backtrack fuel y w = Ok (r, w') ∧ shape n (board w') ∧
    (r = false → solution (board w') = solution (board w)).
Proof.
  induction fuel as [|fuel IH]; intros y w Hsh Hy Hrows Hfuel; [lia|].
  cbn [backtrack].
  rewrite (bind_query _ _ _ _ (is_valid_row_order _ _ _ n_pos Hsh Hy Hrows)).
  case_bool_decide as Hyn; [by exists true, w|].
  rewrite (bind_query _ _ _ n) by (by rewrite (shape_size _ _ Hsh)).
  apply backtrack_cols_total; try done; try lia.
  intros w1 Hsh1 Hrows1. apply IH; try done; lia.
Qed.
End termination.

(** C7: from a board of size [n], at most [max_size], whose rows below
    [y] hold a queen and whose rows from [y] on hold none, with
    [0 <= y <= n], [backtrack(board, y)] returns: each nested call is on
    the next row and none is made past row [n], so any fuel above [n - y]
    is enough. *)
Theorem backtrack_terminates n y w fuel :
  0 < n ≤ max_size → shape n (board w) → 0 ≤ y ≤ n →
  row_order n y (solution (board w)) →
  (Z.to_nat (n - y) < fuel)%nat →
  ∃ r w', backtrack fuel y w = Ok (r, w').
Proof.
  intros [Hn Hmax] Hsh Hy Hrows Hfuel.
  destruct (backtrack_total n Hn fuel y w) as (r & w' & H & _); eauto.
Qed.

Lemma backtrack_terminates_witness :
  ∃ r w',
    backtrack 4 1 (start (λ _, 0%N) (mkBoard 4 3 [2; -1; -1; -1] [1; 1; 0; 1]
                     [1; 0; 1; 1; 1; 1; 1] [1; 1; 0; 1; 1; 1; 1]))
    = Ok (r, w').
Proof.
  apply (backtrack_terminates 4 1).
  - unfold max_size. lia.
  - split; reflexivity.
  - lia.
  - intros i Hi. assert (Hc : i = 0 ∨ i = 1 ∨ i = 2 ∨ i = 3) by lia.
    destruct Hc as [->|[->|[->| ->]]]; (split; [|intros; try lia; reflexivity]).
    + intros _. exists 2. split; [reflexivity | lia].
    + lia.
    + lia.
    + lia.
  - cbn. lia.
Defined.

(** ** Small boards *)

(** C2: on the empty board of size 1 to 8 [backtrack] from row 0 returns
    false for the sizes 2 and 3 and true for the sizes 1, 4, 5, 6, 7
    and 8; with true the board holds a solution. *)
Theorem backtrack_small_boards n b0 rs fuel :
  1 ≤ n ≤ 8 → create_board n = Ok b0 → (Z.to_nat n < fuel)%nat →
  ∃ w', backtrack fuel 0 (start rs b0)
        = Ok (negb ((n =? 2) || (n =? 3)), w') ∧
        (n ≠ 2 → n ≠ 3 → is_solution n (solution (board w'))).
Proof.
  intros Hn Hb Hfuel. rewrite create_board_fresh in Hb. injection Hb as <-.
  destruct (backtrack_spec n ltac:(lia) fuel 0 (start rs (fresh n)))
    as (r & w' & Hrun & _ & _ & Hpost).
  { split; [apply consistent_fresh|]. split; [lia|].
    intros i Hi. split; [lia|]. intros _. cbn. apply rd_replicate. lia. }
  { lia. }
  exists w'.
  assert (Hsmall : ∃ w'', backtrack (S (Z.to_nat n)) 0 (start rs (fresh n))
                    = Ok (negb ((n =? 2) || (n =? 3)), w'')).
  { assert (Hcases : n = 1 ∨ n = 2 ∨ n = 3 ∨ n = 4 ∨ n = 5 ∨ n = 6 ∨ n = 7 ∨
                     n = 8) by lia.
    destruct Hcases as [->|[->|[->|[->|[->|[->|[->| ->]]]]]]];
      eexists; vm_compute; reflexivity. }
  destruct Hsmall as [w'' Hsmall].
  apply (backtrack_fuel_le _ fuel) in Hsmall; [|lia].
  rewrite Hsmall in Hrun. injection Hrun as <- <-. split; [done|].
  intros H2 H3. destruct (Z.eqb_spec n 2); [done|].
  destruct (Z.eqb_spec n 3); [done|]. cbn in Hpost.
  apply search_state_full, Hpost.
Qed.

Lemma backtrack_small_boards_witness :
  ∃ w', backtrack 4 0 (start (λ _, 0%N) (fresh 3))
        = Ok (negb ((3 =? 2) || (3 =? 3)), w') ∧
        (3 ≠ 2 → 3 ≠ 3 → is_solution 3 (solution (board w'))).
Proof.
  apply (backtrack_small_boards 3 (fresh 3) (λ _, 0%N) 4);
    [lia | reflexivity | cbn; lia].
Defined.

(** ** The random prefix *)

Section random_prefix.
Variable n : Z.
Hypothesis n_pos : 0 < n.

Lemma collect_col_true b y x (s : list Z * Z) :
  can_place_queen b x y = Ok true → 0 ≤ s.2 < Z.of_nat (length s.1) →
  collect_col b y x s = Ok (<[Z.to_nat s.2 := x]> s.1, s.2 + 1).
Proof. intros Hcan Hs. unfold collect_col. by rewrite Hcan, wr_in_bounds. Qed.

Lemma collect_col_false b y x (s : list Z * Z) :
  can_place_queen b x y = Ok false → collect_col b y x s = Ok s.
Proof. intros Hcan. unfold collect_col. by rewrite Hcan. Qed.

Lemma collect_loop b y :
  shape n b → 0 ≤ y < n →
  ∀ (k : nat) (x : Z) (s : list Z * Z),
    Z.of_nat k = n - x → 0 ≤ x → collected n b y x s →
    ∃ s', for_loop k x (collect_col b y) s = Ok s' ∧ collected n b y n s'.
Proof.
  intros Hsh Hy. induction k as [|k IH]; intros x s Hk Hx Hs.
  - exists s. split; [done|]. assert (x = n) as -> by lia. done.
  - assert (Hxn : 0 ≤ x < n) by lia.
    pose proof (shape_inside _ _ _ _ Hsh Hxn Hy) as Hin.
    destruct (can_place_queen_inside _ _ _ Hin) as [c Hcan].
    destruct Hs as (Hlen & Hidx & Hcols & Hnone).
    cbn [for_loop]. destruct c.
    + rewrite collect_col_true by (done || lia). cbn [mbind res_bind].
      apply IH; [lia | lia |].
      split; [|split; [|split]]; cbn.
      * by rewrite length_insert.
      * lia.
      * intros j Hj. destruct (decide (j = s.2)) as [->|Hne].
        -- exists x. rewrite rd_insert_eq by lia. split; [done|].
           split; [lia | done].
        -- destruct (Hcols j) as (c & Hc & Hcx & Hcc); [lia|].
           exists c. rewrite rd_insert_ne by lia. split; [done|].
           split; [lia | done].
      * lia.
    + rewrite collect_col_false by done. cbn [mbind res_bind].
      apply IH; [lia | lia |]. split; [|split; [|split]]; try done.
      * lia.
      * intros j Hj. destruct (Hcols j Hj) as (c & Hc & Hcx & Hcc).
        exists c. split; [done|]. split; [lia | done].
      * intros H0 c Hc. destruct (decide (c = x)) as [->|Hne]; [done|].
        apply Hnone; [done | lia].
Qed.

Lemma available_spec b y a :
  shape n b → 0 ≤ y < n → length a = Z.to_nat n →
  ∃ s, available y a b = Ok s ∧ collected n b y n s.
Proof.
  intros Hsh Hy Hlen. unfold available, for_range.
  rewrite (shape_size _ _ Hsh). apply collect_loop; try done; try lia.
  split; [|split; [|split]]; cbn; try done; try lia.
Qed.

(** No column is collected exactly when every column is refused. *)
Lemma collected_none b y s :
  collected n b y n s →
  (∀ x, 0 ≤ x < n → can_place_queen b x y = Ok false) → s.2 = 0.
Proof.
  intros (_ & Hidx & Hcols & _) Hno.
  destruct (decide (s.2 = 0)) as [|Hne]; [done|].
  destruct (Hcols 0) as (c & _ & Hc & Hcan); [lia|].
  rewrite (Hno c Hc) in Hcan. discriminate.
Qed.

Lemma evolves_push y w w' :
  rand_src w' = rand_src w → visited w' = board w' :: visited w →
  search_state n y (board w') → evolves n w w'.
Proof.
  intros Hr Hv Hst. split; [done|]. exists [board w']. split; [done|].
  constructor; [by exists y | constructor].
Qed.

(** The rows loop either stops at a row where no column is free, with
    the queens of the rows before it on the board, or fills its rows. *)
Lemma solve_lv_rows_spec (k : nat) : ∀ (y : Z) (a : list Z) (w : World),
  search_state n y (board w) → y + Z.of_nat k ≤ n → length a = Z.to_nat n →
  ∃ e a' w', solve_lv_rows k y a w = Ok ((e, a'), w') ∧
    evolves n w w' ∧ length a' = Z.to_nat n ∧
    match e with
    | Some r => r = false ∧ ∃ y', y ≤ y' < y + Z.of_nat k ∧
                                  search_state n y' (board w')
    | None => search_state n (y + Z.of_nat k) (board w')
    end.
Proof.
  induction k as [|k IH]; intros y a w Hst Hyk Hlen.
  - exists None, a, w. split; [done|]. split; [apply evolves_refl|].
    split; [done|]. by rewrite Z.add_0_r.
  - pose proof Hst as (Hc & Hy & _).
    destruct (available_spec (board w) y a) as (s & Havail & Hs);
      [apply Hc | lia | done |].
    cbn [solve_lv_rows]. rewrite (bind_query _ _ _ s) by done.
    pose proof Hs as (Hlen' & Hidx & Hcols & _).
    destruct (Z.eqb_spec s.2 0) as [H0|H0].
    + exists (Some false), s.1, w. split; [done|].
      split; [apply evolves_refl|]. split; [done|]. split; [done|].
      exists y. split; [lia | done].
    + rewrite bind_rand. set (r := Z.of_N _).
      assert (Hrem : 0 ≤ Z.rem r s.2 < s.2).
      { apply Z.rem_bound_pos; [unfold r|]; lia. }
      destruct (Hcols _ Hrem) as (x & Hx & Hxn & Hcan).
      rewrite (bind_lift _ _ _ x) by done.
      rewrite (bind_update _ _ _ (put (board w) x y x 0)).
      2:{ cbn. apply place_queen_inside.
          eapply shape_inside; [apply Hc | done | lia]. }
      cbn [board rand_src rand_calls visited].
      set (w1 := mkWorld (put (board w) x y x 0) _ _ _).
      assert (Hst1 : search_state n (y + 1) (board w1)).
      { apply search_state_place; [done | lia | done | done]. }
      destruct (IH (y + 1) s.1 w1) as (e & a' & w' & Hrun & Hev & Hla & Hpost);
        [done | lia | done |].
      exists e, a', w'. split; [done|]. split.
      { eapply evolves_trans; [|exact Hev]. by eapply evolves_push. }
      split; [done|]. destruct e as [r'|].
      * destruct Hpost as [-> (y' & Hy' & Hst')]. split; [done|].
        exists y'. split; [lia | done].
      * by replace (y + Z.of_nat (S k)) with (y + 1 + Z.of_nat k) by lia.
Qed.

(** Running [j + k] rows is running [j] rows and then, unless these
    returned early, [k] more. *)
Lemma solve_lv_rows_split (j k : nat) : ∀ (y : Z) (a : list Z) (w : World),
  solve_lv_rows (j + k) y a w
  = bind (solve_lv_rows j y a)
         (λ e, match e.1 with
               | Some r => ret e
               | None => solve_lv_rows k (y + Z.of_nat j) e.2
               end) w.
Proof.
  induction j as [|j IH]; intros y a w.
  - cbn [Nat.add solve_lv_rows]. rewrite bind_ret. cbn. by rewrite Z.add_0_r.
  - cbn [Nat.add solve_lv_rows]. rewrite bind_assoc.
    apply bind_ext. intros s w1. destruct (s.2 =? 0); [by rewrite bind_ret|].
    rewrite bind_assoc. apply bind_ext. intros r w2.
    rewrite bind_assoc. apply bind_ext. intros x w3.
    rewrite bind_assoc. apply bind_ext. intros _ w4.
    rewrite IH. apply bind_ext. intros [[r'|] a'] w5; [done|].
    cbn. f_equal. lia.
Qed.
End random_prefix.

(** ** The Las Vegas search *)

Lemma search_state_fresh n : 0 < n → search_state n 0 (fresh n).
Proof.
  intros Hn. split; [apply consistent_fresh|]. split; [lia|].
  intros i Hi. split; [lia|]. intros _. cbn. apply rd_replicate. lia.
Qed.

Lemma search_state_shape n y b : search_state n y b → shape n b.
Proof. intros (Hc & _). apply Hc. Qed.

Lemma is_solution_entries n s : is_solution n s → entries_disjoint s.
Proof.
  intros (Hlen & Hfull & Hsafe) y1 y2 x1 x2 Hne H1 H2.
  assert (Hq : ∀ y x, rd s y = Ok x → queen s y x).
  { intros y x Hy. pose proof (rd_bounds _ _ _ Hy) as Hb.
    destruct (Hfull y) as (x' & Hx' & Hr); [lia|].
    split; [done|]. rewrite Hy in Hx'. injection Hx' as ->. lia. }
  apply Hsafe; auto.
Qed.

Lemma two_queens_unsolvable : ¬ solvable 2.
Proof.
  intros (s & Hlen & Hfull & Hsafe).
  destruct (Hfull 0) as (x0 & H0 & Hx0); [lia|].
  destruct (Hfull 1) as (x1 & H1 & Hx1); [lia|].
  destruct (Hsafe 0 1 x0 x1) as (Hc & Hr & Hf);
    [split; [done | lia] | split; [done | lia] | lia |]. lia.
Qed.

Lemma three_queens_unsolvable : ¬ solvable 3.
Proof.
  intros (s & Hlen & Hfull & Hsafe).
  destruct (Hfull 0) as (x0 & H0 & Hx0); [lia|].
  destruct (Hfull 1) as (x1 & H1 & Hx1); [lia|].
  destruct (Hfull 2) as (x2 & H2 & Hx2); [lia|].
  assert (Hq0 : queen s 0 x0) by (split; [done | lia]).
  assert (Hq1 : queen s 1 x1) by (split; [done | lia]).
  assert (Hq2 : queen s 2 x2) by (split; [done | lia]).
  destruct (Hsafe 0 1 x0 x1 Hq0 Hq1) as (? & ? & ?); [lia|].
  destruct (Hsafe 0 2 x0 x2 Hq0 Hq2) as (? & ? & ?); [lia|].
  destruct (Hsafe 1 2 x1 x2 Hq1 Hq2) as (? & ? & ?); [lia|].
  lia.
Qed.

(** The two solutions for four queens. *)
Lemma four_queens_solutions :
  is_solution 4 [1; 3; 0; 2] ∧ is_solution 4 [2; 0; 3; 1].
Proof.
  split.
  all: split; [reflexivity|]; split.
  all: try (intros i Hi; assert (Hc : i = 0 ∨ i = 1 ∨ i = 2 ∨ i = 3) by lia;
            destruct Hc as [->|[->|[->| ->]]]; eexists;
            (split; [reflexivity | lia])).
  all: intros y1 y2 x1 x2 [H1 _] [H2 _] Hne;
    pose proof (rd_bounds _ _ _ H1) as Hb1;
    pose proof (rd_bounds _ _ _ H2) as Hb2; cbn in Hb1, Hb2;
    assert (Hc1 : y1 = 0 ∨ y1 = 1 ∨ y1 = 2 ∨ y1 = 3) by lia;
    assert (Hc2 : y2 = 0 ∨ y2 = 1 ∨ y2 = 2 ∨ y2 = 3) by lia;
    destruct Hc1 as [->|[->|[->| ->]]], Hc2 as [->|[->|[->| ->]]];
    injection H1 as <-; injection H2 as <-; lia.
Qed.


Section las_vegas.
Variable n : Z.
Hypothesis n_pos : 0 < n.

(** [solve_lv] from a search state at row 0 returns when given more fuel
    than rows are left to [backtrack]; with true the board is full. With
    false and no random queen, no solution exists. *)
Lemma solve_lv_spec (fuel : nat) (k : Z) (w : World) :
  0 ≤ k ≤ n → search_state n 0 (board w) →
  (Z.to_nat (n - k) < fuel)%nat →
  ∃ r w', solve_lv fuel k w = Ok (r, w') ∧ evolves n w w' ∧
    if r : bool then search_state n n (board w')
    else (∃ y, search_state n y (board w')) ∧ (k = 0 → ¬ solvable n).
Proof.
  intros Hk Hst Hfuel. unfold solve_lv.
  rewrite (bind_query _ _ _ n)
    by (by rewrite (shape_size _ _ (search_state_shape _ _ _ Hst))).
  destruct (solve_lv_rows_spec n n_pos (Z.to_nat (k - 0)) 0 (malloc n) w)
    as (e & a & w1 & Hrows & Hev1 & Hlen & Hpost); [done | lia | |].
  { unfold malloc. by rewrite length_replicate. }
  rewrite (bind_run _ _ _ _ _ Hrows). cbn [fst].
  destruct e as [r|].
  - destruct Hpost as [-> (y' & Hy' & Hst')].
    exists false, w1. split; [done|]. split; [done|].
    split; [by exists y'|]. lia.
  - replace (0 + Z.of_nat (Z.to_nat (k - 0))) with k in Hpost by lia.
    destruct (backtrack_spec n n_pos fuel k w1 Hpost Hfuel)
      as (r & w' & Hrun & Hev & _ & Hr).
    exists r, w'. split; [done|]. split; [by eapply evolves_trans|].
    destruct r; [apply Hr|]. destruct Hr as [Hb Hnone]. split.
    + exists k. by rewrite Hb.
    + intros -> (s & Hs). apply (Hnone s Hs). intros i Hi. lia.
Qed.

(** Whenever [repeat_lv] returns, it has counted at least one trial and
    the board is full. *)
Lemma repeat_lv_loop_spec (k : Z) (fuel : nat) : ∀ (t : Z) (w : World) t' w',
  0 ≤ k ≤ n → shape n (board w) →
  repeat_lv_loop fuel k t w = Ok (t', w') →
  t < t' ∧ evolves n w w' ∧ search_state n n (board w') ∧
  (k = 0 → t' = t + 1).
Proof.
  induction fuel as [|fuel IH]; intros t w t' w' Hk Hsh Hrun; [done|].
  cbn [repeat_lv_loop] in Hrun.
  rewrite (bind_update _ _ _ (fresh n)) in Hrun
    by (by apply reset_board_fresh).
  set (w0 := mkWorld (fresh n) _ _ _) in Hrun.
  assert (Hev0 : evolves n w w0).
  { by apply (evolves_push n 0); [| |apply search_state_fresh]. }
  apply bind_inv in Hrun as (found & w1 & Hsolve & Hrest).
  destruct (solve_lv_spec (Nat.max fuel (S (Z.to_nat n))) k w0)
    as (r & w1' & Hsolve' & Hev1 & Hpost);
    [done | by apply search_state_fresh | lia |].
  apply (solve_lv_fuel_le fuel (Nat.max fuel (S (Z.to_nat n)))) in Hsolve;
    [|lia].
  rewrite Hsolve in Hsolve'. injection Hsolve' as <- <-.
  destruct found.
  - injection Hrest as <- <-. split; [lia|].
    split; [by eapply evolves_trans|]. split; [done | lia].
  - destruct Hpost as [[y Hst1] Hnone].
    destruct (IH _ _ _ _ Hk (search_state_shape _ _ _ Hst1) Hrest)
      as (Ht & Hev & Hfull & _).
    split; [lia|]. split.
    { eapply evolves_trans; [exact Hev0|]. by eapply evolves_trans. }
    split; [done|]. intros ->. exfalso.
    (* without random queens a failed trial fails again *)
    clear IH Ht Hev. destruct (Hnone eq_refl).
    exists (solution (board w')). by apply search_state_full.
Qed.

(** On a size with no solution [repeat_lv] never returns. *)
Lemma repeat_lv_loop_unsolvable (k : Z) (fuel : nat) (t : Z) (w : World) v :
  0 ≤ k ≤ n → shape n (board w) → ¬ solvable n →
  repeat_lv_loop fuel k t w ≠ Ok v.
Proof.
  intros Hk Hsh Hno Hrun. destruct v as [t' w'].
  apply repeat_lv_loop_spec in Hrun as (_ & _ & Hfull & _); try done.
  apply Hno. exists (solution (board w')). by apply search_state_full.
Qed.
End las_vegas.

Lemma solve_lv_zero fuel w : solve_lv fuel 0 w = backtrack fuel 0 w.
Proof. reflexivity. Qed.

Lemma repeat_lv_loop_S fuel k t w :
  repeat_lv_loop (S fuel) k t w
  = bind (update reset_board) (λ _,
      bind (solve_lv fuel k) (λ found : bool,
        if found then ret (t + 1) else repeat_lv_loop fuel k (t + 1))) w.
Proof. reflexivity. Qed.

(** ** Completed boards *)

(** Along a run that started with search states in its history, every
    visited board on which [is_valid] answers true is a solution. *)
Lemma evolved_complete n w w' :
  0 < n → evolves n w w' →
  (∀ b, b ∈ visited w → ∃ y, search_state n y b) →
  ∀ b, b ∈ visited w' → complete_is_solution n b.
Proof.
  intros Hn [_ (l & Hvis & Hl)] Hw b Hin Hvalid.
  assert (Hst : ∃ y, search_state n y b).
  { rewrite Hvis in Hin. apply elem_of_app in Hin as [Hin|Hin]; [|auto].
    rewrite Forall_forall in Hl. by apply Hl. }
  destruct Hst as [y Hst].
  rewrite (is_valid_search_state _ _ _ Hn Hst) in Hvalid.
  injection Hvalid as Hy. apply bool_decide_eq_true in Hy as ->.
  pose proof (search_state_full _ _ Hst) as Hsol.
  split; [done|]. by eapply is_solution_entries.
Qed.

(** C1: [solve_lv] with [k] random queens, [0 <= k <= n], started on the
    board [create_board(n)] returns, and every board it went through,
    that is the first one and the board after each [place_queen] and
    [remove_queen] of [solve_lv] and of [backtrack], on which [is_valid]
    answers true is a solution: every row holds a queen of the board and
    no two entries of [solution] share a column or a diagonal. The same
    holds of every board [repeat_lv] went through when it returns. *)
Theorem completed_boards_are_solutions n k rs b0 fuel :
  0 < n → 0 ≤ k ≤ n → create_board n = Ok b0 →
  (Z.to_nat (n - k) < fuel)%nat →
  (∃ r w', solve_lv fuel k (start rs b0) = Ok (r, w') ∧
     ∀ b, b ∈ visited w' → complete_is_solution n b) ∧
  (∀ fuel' t w', repeat_lv fuel' k (start rs b0) = Ok (t, w') →
     ∀ b, b ∈ visited w' → complete_is_solution n b).
Proof.
  intros Hn Hk Hb Hfuel. rewrite create_board_fresh in Hb. injection Hb as <-.
  assert (Hstart : ∀ b, b ∈ visited (start rs (fresh n)) →
                        ∃ y, search_state n y b).
  { intros b Hin. cbn in Hin. apply list_elem_of_singleton in Hin as ->.
    exists 0. by apply search_state_fresh. }
  split.
  - destruct (solve_lv_spec n Hn fuel k (start rs (fresh n)))
      as (r & w' & Hrun & Hev & _);
      [done | by apply search_state_fresh | done |].
    exists r, w'. split; [done|]. by eapply evolved_complete.
  - intros fuel' t w' Hrun.
    apply (repeat_lv_loop_spec n Hn) in Hrun as (_ & Hev & _);
      [|done|apply shape_fresh].
    by eapply evolved_complete.
Qed.

Lemma completed_boards_are_solutions_witness :
  (∃ r w' b, solve_lv 5 2 (start (λ _, 1%N) (fresh 4)) = Ok (r, w') ∧
     b ∈ visited w' ∧ is_valid b = Ok true ∧ solution b = [1; 3; 0; 2] ∧
     is_solution 4 (solution b) ∧ entries_disjoint (solution b)) ∧
  (∃ t w' b, repeat_lv 6 2 (start (λ _, 1%N) (fresh 4)) = Ok (t, w') ∧
     b ∈ visited w' ∧ is_valid b = Ok true ∧ solution b = [1; 3; 0; 2] ∧
     is_solution 4 (solution b) ∧ entries_disjoint (solution b)).
Proof.
  destruct (completed_boards_are_solutions 4 2 (λ _, 1%N) (fresh 4) 5)
    as [_ Hrep]; [lia | lia | reflexivity | cbn; lia |].
  destruct (completed_boards_are_solutions 4 2 (λ _, 1%N) (fresh 4) 5)
    as [(r & w' & Hrun & Hall) _]; [lia | lia | reflexivity | cbn; lia |].
  split.
  - vm_compute in Hrun. injection Hrun as <- <-.
    eexists _, _, _. split; [vm_compute; reflexivity|].
    split; [apply list_elem_of_here|].
    split; [vm_compute; reflexivity|]. split; [vm_compute; reflexivity|].
    apply Hall; [apply list_elem_of_here | vm_compute; reflexivity].
  - eexists _, _, _. split; [vm_compute; reflexivity|].
    split; [apply list_elem_of_here|].
    split; [vm_compute; reflexivity|]. split; [vm_compute; reflexivity|].
    eapply (Hrep 6%nat);
      [vm_compute; reflexivity | apply list_elem_of_here
      | vm_compute; reflexivity].
Defined.

(** ** Without random queens *)

(** C5, as stated: on the board of size 2, which has no solution,
    [backtrack] from row 0 returns false on the reset board, while
    [repeat_lv] without random queens returns with no amount of fuel:
    there is no final board to compare. *)
Lemma repeat_lv_two_queens_diverges :
  (∃ w', backtrack 3 0 (after_reset 2 (start (λ _, 0%N) (fresh 2)))
         = Ok (false, w') ∧ board w' = fresh 2) ∧
  ¬ ∃ fuel v, repeat_lv fuel 0 (start (λ _, 0%N) (fresh 2)) = Ok v.
Proof.
  split.
  - eexists. split; [vm_compute; reflexivity | reflexivity].
  - intros (fuel & v & Hrun). revert Hrun. unfold repeat_lv.
    apply (repeat_lv_loop_unsolvable 2 ltac:(lia) 0 fuel 0 _ v);
      [lia | apply shape_fresh | apply two_queens_unsolvable].
Qed.

(** C5, amended: on a board of a size [n], positive and below
    [max_size]. If the size has a solution, [repeat_lv] without random
    queens returns after one trial, in the very state in which [backtrack]
    from row 0 returns true when run on the state after [reset_board]. If
    the size has no solution, [backtrack] returns false there, on the
    reset board, and [repeat_lv] never returns. *)
Theorem repeat_lv_is_backtrack n w fuel fuel' :
  0 < n < max_size → shape n (board w) →
  (Z.to_nat n < fuel)%nat → (Z.to_nat n + 1 < fuel')%nat →
  update reset_board w = Ok (tt, after_reset n w) ∧
  (solvable n →
   ∃ w', backtrack fuel 0 (after_reset n w) = Ok (true, w') ∧
         repeat_lv fuel' 0 w = Ok (1, w')) ∧
  (¬ solvable n →
   (∃ w', backtrack fuel 0 (after_reset n w) = Ok (false, w') ∧
          board w' = fresh n) ∧
   ∀ fuel'' v, repeat_lv fuel'' 0 w ≠ Ok v).
Proof.
  intros [Hn Hmax] Hsh Hfuel Hfuel'.
  assert (Hreset : update reset_board w = Ok (tt, after_reset n w)).
  { unfold update. by rewrite (reset_board_fresh n). }
  split; [done|].
  destruct (backtrack_spec n Hn (S (Z.to_nat n)) 0 (after_reset n w))
    as (r & w' & Hrun0 & _ & _ & Hpost);
    [by apply search_state_fresh | lia |].
  assert (Hrun : backtrack fuel 0 (after_reset n w) = Ok (r, w'))
    by (apply (backtrack_fuel_le (S (Z.to_nat n))); [lia | done]).
  split.
  - intros [s Hs]. destruct r.
    + exists w'. split; [done|].
      apply (repeat_lv_fuel_le (S (S (Z.to_nat n)))); [lia|].
      unfold repeat_lv. rewrite repeat_lv_loop_S.
      rewrite (bind_run _ _ _ _ _ Hreset).
      rewrite (bind_run _ _ _ true w'); [done|]. by rewrite solve_lv_zero.
    + destruct Hpost as [_ Hnone]. destruct (Hnone s Hs). intros i Hi. lia.
  - intros Hnone. split.
    + destruct r.
      * destruct Hnone. exists (solution (board w')).
        apply search_state_full, Hpost.
      * exists w'. split; [done|]. apply Hpost.
    + intros fuel'' v. unfold repeat_lv.
      by apply (repeat_lv_loop_unsolvable n Hn 0 fuel'' 0 w v); [lia| |].
Qed.

Lemma repeat_lv_is_backtrack_witness :
  (∃ w', backtrack 5 0 (after_reset 4 (start (λ _, 0%N) (fresh 4)))
         = Ok (true, w') ∧
         repeat_lv 6 0 (start (λ _, 0%N) (fresh 4)) = Ok (1, w')) ∧
  ((∃ w', backtrack 4 0 (after_reset 3 (start (λ _, 0%N) (fresh 3)))
          = Ok (false, w') ∧ board w' = fresh 3) ∧
   ∀ fuel v, repeat_lv fuel 0 (start (λ _, 0%N) (fresh 3)) ≠ Ok v).
Proof.
  split.
  - destruct (repeat_lv_is_backtrack 4 (start (λ _, 0%N) (fresh 4)) 5 6)
      as (_ & Hyes & _);
      [unfold max_size; lia | split; reflexivity | cbn; lia | cbn; lia |].
    apply Hyes. exists [1; 3; 0; 2]. apply four_queens_solutions.
  - destruct (repeat_lv_is_backtrack 3 (start (λ _, 0%N) (fresh 3)) 4 5)
      as (_ & _ & Hno);
      [unfold max_size; lia | split; reflexivity | cbn; lia | cbn; lia |].
    apply Hno, three_queens_unsolvable.
Defined.

(** ** A row with no free column *)

(** C8: let [solve_lv] with [k] random queens, [0 <= k <= n], run on the
    reset board of size [n], and let its rows loop reach row [y < k] in
    the state [wy], the rows 0 to [y - 1] being filled. If
    [can_place_queen] refuses every column of row [y], [solve_lv] returns
    false in that very state: no random number is drawn, no queen is
    placed or removed, and the rows below [y] still hold their queens. *)
Theorem solve_lv_fails_at_stuck_row n k y w a wy fuel :
  0 < n → 0 ≤ y < k → k ≤ n → board w = fresh n →
  solve_lv_rows (Z.to_nat y) 0 (malloc n) w = Ok ((None, a), wy) →
  (∀ x, 0 ≤ x < n → can_place_queen (board wy) x y = Ok false) →
  solve_lv fuel k w = Ok (false, wy) ∧
  row_order n y (solution (board wy)) ∧
  ∀ i, 0 ≤ i < y → ∃ x, queen (solution (board wy)) i x.
Proof.
  intros Hn Hy Hk Hw Hrows Hstuck.
  assert (Hst : search_state n 0 (board w)).
  { rewrite Hw. by apply search_state_fresh. }
  destruct (solve_lv_rows_spec n Hn (Z.to_nat y) 0 (malloc n) w)
    as (e & a' & w' & Hrows' & _ & Hlen & Hpost); [done | lia | |].
  { unfold malloc. by rewrite length_replicate. }
  rewrite Hrows in Hrows'. injection Hrows' as <- <- <-.
  replace (0 + Z.of_nat (Z.to_nat y)) with y in Hpost by lia.
  pose proof Hpost as (Hc & _ & Hord).
  split; [|split; [done|]].
  - unfold solve_lv.
    rewrite (bind_query _ _ _ n)
      by (by rewrite (shape_size _ _ (search_state_shape _ _ _ Hst))).
    replace (Z.to_nat (k - 0))
      with (Z.to_nat y + S (Z.to_nat (k - y - 1)))%nat by lia.
    destruct (available_spec n Hn (board wy) y a) as (s & Havail & Hs);
      [apply Hc | lia | done |].
    rewrite (bind_run _ _ _ (Some false, s.1) wy); [done|].
    rewrite solve_lv_rows_split. rewrite (bind_run _ _ _ _ _ Hrows).
    cbn [fst snd]. replace (0 + Z.of_nat (Z.to_nat y)) with y by lia.
    cbn [solve_lv_rows]. rewrite (bind_query _ _ _ s) by done.
    by rewrite (collected_none n _ _ _ Hs Hstuck).
  - intros i Hi. apply (Hord i); lia.
Qed.

Lemma solve_lv_fails_at_stuck_row_witness :
  ∃ wy, solve_lv 5 3 (start (λ _, 0%N) (fresh 4)) = Ok (false, wy) ∧
        row_order 4 2 (solution (board wy)) ∧
        ∀ i, 0 ≤ i < 2 → ∃ x, queen (solution (board wy)) i x.
Proof.
  eexists.
  eapply (solve_lv_fails_at_stuck_row 4 3 2 (start (λ _, 0%N) (fresh 4))).
  - lia.
  - lia.
  - lia.
  - reflexivity.
  - vm_compute. reflexivity.
  - intros x Hx. assert (Hc : x = 0 ∨ x = 1 ∨ x = 2 ∨ x = 3) by lia.
    destruct Hc as [->|[->|[->| ->]]]; reflexivity.
Defined.

(** ** Four queens *)

(** C9: on the board [create_board(4)], without random queens, the search
    succeeds and leaves [solution] as 1, 3, 0, 2: [backtrack] from row 0,
    [solve_lv] and, after one trial, [repeat_lv]. *)
Theorem four_queens_first_solution b0 rs fuel :
  create_board 4 = Ok b0 → (4 < fuel)%nat →
  ∃ w w',
    backtrack fuel 0 (start rs b0) = Ok (true, w) ∧
    solve_lv fuel 0 (start rs b0) = Ok (true, w) ∧
    solution (board w) = [1; 3; 0; 2] ∧
    repeat_lv (S fuel) 0 (start rs b0) = Ok (1, w') ∧
    solution (board w') = [1; 3; 0; 2].
Proof.
  intros Hb Hfuel. rewrite create_board_fresh in Hb. injection Hb as <-.
  assert (H5 : ∃ w, backtrack 5 0 (start rs (fresh 4)) = Ok (true, w) ∧
                    solution (board w) = [1; 3; 0; 2]).
  { eexists. split; [vm_compute; reflexivity | reflexivity]. }
  assert (H6 : ∃ w', repeat_lv 6 0 (start rs (fresh 4)) = Ok (1, w') ∧
                     solution (board w') = [1; 3; 0; 2]).
  { eexists. split; [vm_compute; reflexivity | reflexivity]. }
  destruct H5 as (w & Hbt & Hsol), H6 as (w' & Hrep & Hsol').
  apply (backtrack_fuel_le 5 fuel) in Hbt; [|lia].
  apply (repeat_lv_fuel_le 6 (S fuel)) in Hrep; [|lia].
  exists w, w'. by rewrite solve_lv_zero.
Qed.

Lemma four_queens_first_solution_witness :
  ∃ w w',
    backtrack 5 0 (start (λ _, 0%N) (fresh 4)) = Ok (true, w) ∧
    solve_lv 5 0 (start (λ _, 0%N) (fresh 4)) = Ok (true, w) ∧
    solution (board w) = [1; 3; 0; 2] ∧
    repeat_lv 6 0 (start (λ _, 0%N) (fresh 4)) = Ok (1, w') ∧
    solution (board w') = [1; 3; 0; 2].
Proof.
  apply (four_queens_first_solution (fresh 4) (λ _, 0%N) 5); [reflexivity|lia].
Defined.

(** * Further properties of the board operations *)

(** ** A new board *)

(** On the board [create_board(n)] returns, for [n] positive and below
    [max_size], where [size * 2 - 1] is a value of [int], no row holds a
    queen, [is_valid] answers false and [can_place_queen] accepts every
    square. *)
Theorem create_board_all_free n :
  0 < n < max_size →
  in_int (n * 2) ∧ in_int (n * 2 - 1) ∧
  ∃ b, create_board n = Ok b ∧ shape n b ∧ is_valid b = Ok false ∧
    ∀ x y, 0 ≤ x < n → 0 ≤ y < n →
      rd (solution b) y = Ok (-1) ∧ can_place_queen b x y = Ok true.
Proof.
  intros [Hn Hmax].
  split; [unfold in_int, INT_MIN, INT_MAX, max_size in *; lia|].
  split; [unfold in_int, INT_MIN, INT_MAX, max_size in *; lia|].
  exists (fresh n). split; [apply create_board_fresh|].
  split; [apply shape_fresh|]. split.
  - unfold is_valid. cbn. by rewrite rd_replicate by lia.
  - intros x y Hx Hy. split; [cbn; apply rd_replicate; lia|].
    apply can_place_queen_true. exists 1, 1, 1. cbn.
    unfold diag45_index, diag135_index. cbn.
    rewrite !rd_replicate by lia. done.
Qed.

Lemma create_board_all_free_witness :
  in_int (8 * 2) ∧ in_int (8 * 2 - 1) ∧
  ∃ b, create_board 8 = Ok b ∧ shape 8 b ∧ is_valid b = Ok false ∧
    ∀ x y, 0 ≤ x < 8 → 0 ≤ y < 8 →
      rd (solution b) y = Ok (-1) ∧ can_place_queen b x y = Ok true.
Proof. apply (create_board_all_free 8). unfold max_size. lia. Defined.

(** [reset_board] on a board with the dimensions of size [n] gives what
    [create_board(n)] gives, whatever its cells held. *)
Theorem reset_board_is_create_board n b :
  shape n b → reset_board b = create_board n.
Proof.
  intros Hsh. by rewrite create_board_fresh, (reset_board_fresh n).
Qed.

Lemma reset_board_is_create_board_witness :
  reset_board (mkBoard 3 2 [2; 0; 7] [0; 5; 0] [1; 0; 0; 9; 1] [0; 0; 0; 0; 0])
  = create_board 3.
Proof. apply reset_board_is_create_board. split; reflexivity. Defined.

(** ** The conflict test *)

(** On a board of at most [max_size] rows whose tracking arrays are
    consistent with [solution], [can_place_queen] accepts the square
    [(x, y)] exactly when no queen of the board is in column [x] or on one
    of the two diagonals through the square. *)
Theorem can_place_queen_exact n b x y :
  n ≤ max_size → consistent n b → 0 ≤ x < n → 0 ≤ y < n →
  ∃ c, can_place_queen b x y = Ok c ∧
    (c = true ↔
     ∀ y0 x0, queen (solution b) y0 x0 →
       x0 ≠ x ∧ y0 - x0 ≠ y - x ∧ y0 + x0 ≠ y + x).
Proof.
  intros Hmax Hcons Hx Hy.
  pose proof Hcons as [Hsh Hent Hcol Hd45 Hd135 Hsafe].
  pose proof (shape_inside _ _ _ _ Hsh Hx Hy) as Hin.
  destruct (can_place_queen_inside _ _ _ Hin) as [c Hcan].
  exists c. split; [done|].
  assert (Hdr : 0 ≤ diag45_index b x y < 2 * n - 1).
  { unfold diag45_index. rewrite (shape_shift _ _ Hsh). lia. }
  assert (Her : 0 ≤ diag135_index x y < 2 * n - 1).
  { unfold diag135_index. lia. }
  destruct c.
  - split; [intros _|done]. intros y0 x0 Hq.
    apply can_place_queen_true in Hcan
      as (c & d & e & Hc & Hc0 & Hd & Hd0 & He & He0).
    destruct (tracks_free _ _ _ _ (Hcol x Hx) Hc Hc0) as [Hnc _].
    destruct (tracks_free _ _ _ _ (Hd45 _ Hdr) Hd Hd0) as [Hnd _].
    destruct (tracks_free _ _ _ _ (Hd135 _ Her) He He0) as [Hne _].
    repeat split; intros Heq.
    + apply Hnc. exists y0. by rewrite <- Heq.
    + apply Hnd. exists x0, y0. split; [done|].
      unfold diag45_index. rewrite (shape_shift _ _ Hsh). lia.
    + apply Hne. exists x0, y0. split; [done|]. unfold diag135_index. lia.
  - split; [done|]. intros Hfree. exfalso.
    apply can_place_queen_false in Hcan as [Hz|[Hz|Hz]].
    + destruct (tracks_taken _ _ _ (Hcol x Hx) Hz) as [y0 H0].
      by destruct (Hfree _ _ H0) as (? & _).
    + destruct (tracks_taken _ _ _ (Hd45 _ Hdr) Hz) as (x0 & y0 & H0 & Hi).
      destruct (Hfree _ _ H0) as (_ & ? & _).
      unfold diag45_index in Hi. rewrite (shape_shift _ _ Hsh) in Hi. lia.
    + destruct (tracks_taken _ _ _ (Hd135 _ Her) Hz) as (x0 & y0 & H0 & Hi).
      destruct (Hfree _ _ H0) as (_ & _ & ?).
      unfold diag135_index in Hi. lia.
Qed.

Lemma can_place_queen_exact_witness :
  ∃ c, can_place_queen (put (fresh 4) 1 0 1 0) 3 1 = Ok c ∧
    (c = true ↔
     ∀ y0 x0, queen (solution (put (fresh 4) 1 0 1 0)) y0 x0 →
       x0 ≠ 3 ∧ y0 - x0 ≠ 1 - 3 ∧ y0 + x0 ≠ 1 + 3).
Proof.
  apply (can_place_queen_exact 4); [unfold max_size; lia| |lia|lia].
  apply consistent_place; [apply consistent_fresh | lia | lia | |];
    reflexivity.
Defined.

(** ** Placing, then removing *)

(** On a consistent board, on a square [can_place_queen] accepts,
    [place_queen] followed by [remove_queen] restores the three tracking
    arrays and leaves row [y] empty: the board is the one before if the
    row held no queen, otherwise the queen the row held is lost. *)
Theorem remove_after_place n b x y :
  consistent n b → 0 ≤ x < n → 0 ≤ y < n →
  can_place_queen b x y = Ok true →
  ∃ b1, place_queen b x y = Ok b1 ∧
    remove_queen b1 x y
    = Ok (set_solution b (<[Z.to_nat y := -1]> (solution b))) ∧
    (rd (solution b) y = Ok (-1) → remove_queen b1 x y = Ok b).
Proof.
  intros Hcons Hx Hy Hcan.
  pose proof Hcons as [Hsh Hent Hcol Hd45 Hd135 Hsafe].
  pose proof (shape_inside _ _ _ _ Hsh Hx Hy) as Hin.
  exists (put b x y x 0). split; [by apply place_queen_inside|].
  assert (Hback : remove_queen (put b x y x 0) x y
                  = Ok (set_solution b (<[Z.to_nat y := -1]> (solution b)))).
  { rewrite remove_queen_inside
      by (eapply shape_inside; eauto using shape_put).
    rewrite put_put. f_equal.
    apply can_place_queen_true in Hcan
      as (c & d & e & Hc & Hc0 & Hd & Hd0 & He & He0).
    assert (Hdr : 0 ≤ diag45_index b x y < 2 * n - 1).
    { unfold diag45_index. rewrite (shape_shift _ _ Hsh). lia. }
    assert (Her : 0 ≤ diag135_index x y < 2 * n - 1).
    { unfold diag135_index. lia. }
    destruct (tracks_free _ _ _ _ (Hcol x Hx) Hc Hc0) as [_ ->].
    destruct (tracks_free _ _ _ _ (Hd45 _ Hdr) Hd Hd0) as [_ ->].
    destruct (tracks_free _ _ _ _ (Hd135 _ Her) He He0) as [_ ->].
    apply rd_Ok in Hc as [_ Hc], Hd as [_ Hd], He as [_ He].
    unfold put, set_solution. f_equal; by apply list_insert_id. }
  split; [done|]. intros Hrow. rewrite Hback. f_equal.
  apply rd_Ok in Hrow as [_ Hrow]. unfold set_solution.
  rewrite list_insert_id by done. by destruct b.
Qed.

Lemma remove_after_place_witness :
  ∃ b1, place_queen (fresh 4) 2 1 = Ok b1 ∧
    remove_queen b1 2 1
    = Ok (set_solution (fresh 4)
            (<[Z.to_nat 1 := -1]> (solution (fresh 4)))) ∧
    (rd (solution (fresh 4)) 1 = Ok (-1) →
     remove_queen b1 2 1 = Ok (fresh 4)).
Proof.
  apply (remove_after_place 4);
    [apply consistent_fresh | lia | lia | reflexivity].
Defined.

(** ** The completeness test *)

(** When the rows are filled in order, [is_valid] answers true exactly
    when every row holds a queen. *)
Theorem is_valid_iff_all_rows n y b :
  0 < n → shape n b → 0 ≤ y ≤ n → row_order n y (solution b) →
  ∃ v, is_valid b = Ok v ∧
    (v = true ↔ ∀ i, 0 ≤ i < n → ∃ x, queen (solution b) i x).
Proof.
  intros Hn Hsh Hy Hrows. exists (bool_decide (y = n)).
  split; [by apply is_valid_row_order|]. rewrite bool_decide_eq_true. split.
  - intros -> i Hi. apply (Hrows i Hi). lia.
  - intros Hall. destruct (decide (y = n)) as [|Hne]; [done|].
    destruct (Hall y) as [x [Hq Hx]]; [lia|].
    destruct (Hrows y) as [_ He]; [lia|]. rewrite He in Hq; [congruence|lia].
Qed.

Lemma is_valid_iff_all_rows_witness :
  ∃ v, is_valid (put (fresh 4) 1 0 1 0) = Ok v ∧
    (v = true ↔
     ∀ i, 0 ≤ i < 4 → ∃ x, queen (solution (put (fresh 4) 1 0 1 0)) i x).
Proof.
  apply (is_valid_iff_all_rows 4 1); [lia | split; reflexivity | lia |].
  intros i Hi. assert (Hc : i = 0 ∨ i = 1 ∨ i = 2 ∨ i = 3) by lia.
  destruct Hc as [->|[->|[->| ->]]]; (split; [|intros; try lia; reflexivity]).
  - intros _. exists 1. split; [reflexivity | lia].
  - lia.
  - lia.
  - lia.
Defined.

(** [backtrack] trusts the last row: on a board whose last row holds a
    queen it returns true at once, whatever the row it is called on and
    whatever the other rows hold, and changes nothing. *)
Theorem backtrack_trusts_last_row n w x y fuel :
  0 < n → shape n (board w) → queen (solution (board w)) (n - 1) x →
  backtrack (S fuel) y w = Ok (true, w).
Proof.
  intros Hn Hsh [Hq Hx]. cbn [backtrack].
  rewrite (bind_query _ _ _ true); [done|].
  unfold is_valid. rewrite (shape_size _ _ Hsh), Hq. cbn.
  by destruct (Z.eqb_spec x (-1)).
Qed.

Lemma backtrack_trusts_last_row_witness :
  backtrack 1 0 (start (λ _, 0%N) (put (fresh 4) 0 3 0 0))
  = Ok (true, start (λ _, 0%N) (put (fresh 4) 0 3 0 0)) ∧
  rd (solution (put (fresh 4) 0 3 0 0)) 0 = Ok (-1).
Proof.
  split; [|reflexivity].
  apply (backtrack_trusts_last_row 4 _ 0); [lia | split; reflexivity|].
  split; [reflexivity | lia].
Defined.

(** * Further properties of the searches *)

(** ** Backtracking is exhaustive *)

(** From a board of at most [max_size] rows with its first [y] rows
    filled, [backtrack(board, y)] returns true exactly when some solution
    has the queens of these rows. With true the board holds such a
    solution; with false the board is the one it was given. No random
    number is drawn. *)
Theorem backtrack_decides n y w fuel :
  0 < n ≤ max_size → search_state n y (board w) →
  (Z.to_nat (n - y) < fuel)%nat →
  ∃ r w', backtrack fuel y w = Ok (r, w') ∧
    (r = true ↔ ∃ s, is_solution n s ∧ agree y (solution (board w)) s) ∧
    (if r : bool then
       is_solution n (solution (board w')) ∧
       agree y (solution (board w)) (solution (board w'))
     else board w' = board w) ∧
    rand_calls w' = rand_calls w.
Proof.
  intros [Hn Hmax] Hst Hfuel.
  destruct (backtrack_spec n Hn fuel y w Hst Hfuel)
    as (r & w' & Hrun & _ & Hrc & Hpost).
  exists r, w'. split; [done|]. destruct r.
  - destruct Hpost as [Hfull Hag]. apply search_state_full in Hfull.
    split; [|done]. split; [|done]. intros _. by exists (solution (board w')).
  - destruct Hpost as [Hb Hnone]. split; [|done].
    split; [done|]. intros (s & Hs & Hag). by destruct (Hnone s Hs).
Qed.

Lemma backtrack_decides_witness :
  ∃ r w', backtrack 4 1 (start (λ _, 0%N) (put (fresh 4) 0 0 0 0))
          = Ok (r, w') ∧
    (r = true ↔ ∃ s, is_solution 4 s ∧
                     agree 1 (solution (put (fresh 4) 0 0 0 0)) s) ∧
    (if r : bool then
       is_solution 4 (solution (board w')) ∧
       agree 1 (solution (put (fresh 4) 0 0 0 0)) (solution (board w'))
     else board w' = put (fresh 4) 0 0 0 0) ∧
    rand_calls w' = 0%nat.
Proof.
  apply (backtrack_decides 4 1 (start (λ _, 0%N) (put (fresh 4) 0 0 0 0)) 4).
  - unfold max_size. lia.
  - apply (search_state_place 4 0 (fresh 4) 0);
      [apply search_state_fresh; lia | lia | lia | reflexivity].
  - cbn. lia.
Defined.

(** ** One trial *)

Section one_trial.
Variable n : Z.
Hypothesis n_pos : 0 < n.

(** The rows loop draws one random number per queen it places, keeps the
    queens that were there, and stops early only at a row all of whose
    columns [can_place_queen] refuses. *)
Lemma solve_lv_rows_outcome (k : nat) : ∀ (y : Z) (a : list Z) (w : World),
  search_state n y (board w) → y + Z.of_nat k ≤ n → length a = Z.to_nat n →
  ∃ e a' w', solve_lv_rows k y a w = Ok ((e, a'), w') ∧
    agree y (solution (board w)) (solution (board w')) ∧
    match e with
    | Some r =>
        r = false ∧
        ∃ y', y ≤ y' < y + Z.of_nat k ∧ search_state n y' (board w') ∧
          (∀ x, 0 ≤ x < n → can_place_queen (board w') x y' = Ok false) ∧
          Z.of_nat (rand_calls w') = Z.of_nat (rand_calls w) + (y' - y)
    | None =>
        search_state n (y + Z.of_nat k) (board w') ∧
        Z.of_nat (rand_calls w') = Z.of_nat (rand_calls w) + Z.of_nat k
    end.
Proof.
  induction k as [|k IH]; intros y a w Hst Hyk Hlen.
  - exists None, a, w. split; [done|]. split; [apply agree_refl|].
    rewrite Z.add_0_r. split; [done | lia].
  - pose proof Hst as (Hc & Hy & _).
    destruct (available_spec n n_pos (board w) y a) as (s & Havail & Hs);
      [apply Hc | lia | done |].
    cbn [solve_lv_rows]. rewrite (bind_query _ _ _ s) by done.
    pose proof Hs as (Hlen' & Hidx & Hcols & Hnone).
    destruct (Z.eqb_spec s.2 0) as [H0|H0].
    + exists (Some false), s.1, w. split; [done|].
      split; [apply agree_refl|]. split; [done|].
      exists y. split; [lia|]. split; [done|]. split; [|lia].
      intros x Hx. by apply Hnone.
    + rewrite bind_rand. set (r := Z.of_N _).
      assert (Hrem : 0 ≤ Z.rem r s.2 < s.2).
      { apply Z.rem_bound_pos; [unfold r|]; lia. }
      destruct (Hcols _ Hrem) as (x & Hx & Hxn & Hcan).
      rewrite (bind_lift _ _ _ x) by done.
      rewrite (bind_update _ _ _ (put (board w) x y x 0)).
      2:{ cbn. apply place_queen_inside.
          eapply shape_inside; [apply Hc | done | lia]. }
      cbn [board rand_src rand_calls visited].
      set (w1 := mkWorld (put (board w) x y x 0) _ _ _).
      assert (Hst1 : search_state n (y + 1) (board w1)).
      { apply search_state_place; [done | lia | done | done]. }
      destruct (IH (y + 1) s.1 w1) as (e & a' & w' & Hrun & Hag & Hpost);
        [done | lia | done |].
      exists e, a', w'. split; [done|]. split.
      { eapply agree_trans; [apply agree_insert|].
        eapply agree_weaken; [|exact Hag]. lia. }
      destruct e as [r'|].
      * destruct Hpost as [-> (y' & Hy' & Hst' & Hstuck & Hrc)].
        split; [done|]. exists y'. split; [lia|]. split; [done|].
        split; [done|]. cbn in Hrc. lia.
      * destruct Hpost as [Hst' Hrc]. cbn in Hrc.
        replace (y + Z.of_nat (S k)) with (y + 1 + Z.of_nat k) by lia.
        split; [done | lia].
Qed.

(** What one call of [solve_lv] on the reset board comes to. *)
Lemma solve_lv_outcome (fuel : nat) (k : Z) (w : World) :
  0 ≤ k ≤ n → board w = fresh n → (Z.to_nat (n - k) < fuel)%nat →
  ∃ r w' y, solve_lv fuel k w = Ok (r, w') ∧
    0 ≤ y ≤ k ∧ search_state n (if r : bool then n else y) (board w') ∧
    Z.of_nat (rand_calls w') = Z.of_nat (rand_calls w) + y ∧
    (r = true → y = k) ∧
    (r = false → ∀ s, is_solution n s → ¬ agree y (solution (board w')) s).
Proof.
  intros Hk Hw Hfuel.
  assert (Hst : search_state n 0 (board w)).
  { rewrite Hw. by apply search_state_fresh. }
  unfold solve_lv.
  rewrite (bind_query _ _ _ n)
    by (by rewrite (shape_size _ _ (search_state_shape _ _ _ Hst))).
  destruct (solve_lv_rows_outcome (Z.to_nat (k - 0)) 0 (malloc n) w)
    as (e & a & w1 & Hrows & _ & Hpost); [done | lia | |].
  { unfold malloc. by rewrite length_replicate. }
  rewrite (bind_run _ _ _ _ _ Hrows). cbn [fst].
  destruct e as [r|].
  - destruct Hpost as [-> (y & Hy & Hst1 & Hstuck & Hrc)].
    exists false, w1, y. split; [done|]. split; [lia|]. split; [done|].
    split; [lia|]. split; [done|]. intros _ s Hs Hag.
    pose proof Hs as (_ & Hfull & _).
    destruct (Hfull y) as (x & Hsy & Hx); [lia|].
    eapply (refused_square n y (board w1) x s); eauto. lia.
  - replace (0 + Z.of_nat (Z.to_nat (k - 0))) with k in Hpost by lia.
    destruct Hpost as [Hst1 Hrc].
    destruct (backtrack_spec n n_pos fuel k w1 Hst1 Hfuel)
      as (r & w' & Hrun & _ & Hrc' & Hr).
    exists r, w', k. split; [done|]. split; [lia|]. destruct r.
    + split; [apply Hr|]. split; [lia|]. done.
    + destruct Hr as [Hb Hnone]. rewrite Hb. split; [done|].
      split; [lia|]. split; [done|]. intros _. exact Hnone.
Qed.
End one_trial.

(** [solve_lv] with [k] random queens on the reset board of a size [n],
    positive and at most [max_size], returns, for [0 <= k <= n]. It never
    announces a solution that is none: with true
    the board holds a solution. With false the board holds queens in its
    first [y] rows, for some [y <= k], and no solution has these queens:
    the trial failed because its random queens cannot be completed. *)
Theorem solve_lv_las_vegas n k w fuel :
  0 < n ≤ max_size → 0 ≤ k ≤ n → board w = fresh n →
  (Z.to_nat (n - k) < fuel)%nat →
  ∃ r w', solve_lv fuel k w = Ok (r, w') ∧
    if r : bool then is_solution n (solution (board w'))
    else ∃ y, 0 ≤ y ≤ k ∧ row_order n y (solution (board w')) ∧
              ∀ s, is_solution n s → ¬ agree y (solution (board w')) s.
Proof.
  intros [Hn Hmax] Hk Hw Hfuel.
  destruct (solve_lv_outcome n Hn fuel k w Hk Hw Hfuel)
    as (r & w' & y & Hrun & Hy & Hst & _ & _ & Hnone).
  exists r, w'. split; [done|]. destruct r.
  - by apply search_state_full.
  - exists y. split; [done|]. split; [apply Hst | by apply Hnone].
Qed.

Lemma solve_lv_las_vegas_witness :
  ∃ r w', solve_lv 3 2 (start (λ _, 0%N) (fresh 4)) = Ok (r, w') ∧
    if r : bool then is_solution 4 (solution (board w'))
    else ∃ y, 0 ≤ y ≤ 2 ∧ row_order 4 y (solution (board w')) ∧
              ∀ s, is_solution 4 s → ¬ agree y (solution (board w')) s.
Proof.
  apply (solve_lv_las_vegas 4 2 (start (λ _, 0%N) (fresh 4)) 3);
    [unfold max_size; lia | lia | reflexivity | cbn; lia].
Defined.

(** On the reset board of a size [n], positive and at most [max_size],
    [solve_lv] draws one random number for each queen its random prefix
    places and none while backtracking. The number [y] of draws is [k]
    when it returns true; when it returns false, it is the number of
    queens on the board: the rows below [y] hold one each and the other
    rows none. The random source is left as it is. *)
Theorem solve_lv_random_numbers n k w fuel :
  0 < n ≤ max_size → 0 ≤ k ≤ n → board w = fresh n →
  (Z.to_nat (n - k) < fuel)%nat →
  ∃ r w' y, solve_lv fuel k w = Ok (r, w') ∧
    rand_src w' = rand_src w ∧
    0 ≤ y ≤ k ∧ Z.of_nat (rand_calls w') = Z.of_nat (rand_calls w) + y ∧
    if r : bool then y = k else row_order n y (solution (board w')).
Proof.
  intros [Hn Hmax] Hk Hw Hfuel.
  destruct (solve_lv_outcome n Hn fuel k w Hk Hw Hfuel)
    as (r & w' & y & Hrun & Hy & Hst & Hrc & Hyk & _).
  destruct (solve_lv_spec n Hn fuel k w Hk) as (r0 & w0 & Hrun0 & [Hsrc _] & _);
    [rewrite Hw; by apply search_state_fresh | done |].
  rewrite Hrun in Hrun0. injection Hrun0 as <- <-.
  exists r, w', y. split; [done|]. split; [done|]. split; [done|].
  split; [done|]. destruct r; [by apply Hyk | apply Hst].
Qed.

Lemma solve_lv_random_numbers_witness :
  ∃ r w' y, solve_lv 2 3 (start (λ _, 0%N) (fresh 4)) = Ok (r, w') ∧
    rand_src w' = (λ _, 0%N) ∧
    0 ≤ y ≤ 3 ∧ Z.of_nat (rand_calls w') = Z.of_nat 0 + y ∧
    if r : bool then y = 3 else row_order 4 y (solution (board w')).
Proof.
  apply (solve_lv_random_numbers 4 3 (start (λ _, 0%N) (fresh 4)) 2);
    [unfold max_size; lia | lia | reflexivity | cbn; lia].
Defined.

(** ** The retry loop *)

(** Whenever [repeat_lv] returns, on a board of size [n] and with
    [0 <= k <= n] random queens, it has counted at least one trial and the
    board holds a solution. On a size without solution it does not
    return, whatever [k] and the random source. *)
Theorem repeat_lv_returns_solution n k w fuel t w' :
  0 < n → 0 ≤ k ≤ n → shape n (board w) →
  repeat_lv fuel k w = Ok (t, w') →
  1 ≤ t ∧ is_solution n (solution (board w')) ∧ solvable n ∧
  rand_src w' = rand_src w.
Proof.
  intros Hn Hk Hsh Hrun. unfold repeat_lv in Hrun.
  apply (repeat_lv_loop_spec n Hn) in Hrun as (Ht & [Hsrc _] & Hfull & _);
    [|done|done].
  apply search_state_full in Hfull.
  split; [lia|]. split; [done|]. split; [|done].
  by exists (solution (board w')).
Qed.

Lemma repeat_lv_returns_solution_witness :
  ∃ t w', repeat_lv 6 3 (start (λ i, (N.of_nat i * 7)%N) (fresh 4))
          = Ok (t, w') ∧
    1 ≤ t ∧ is_solution 4 (solution (board w')) ∧ solvable 4 ∧
    rand_src w' = (λ i, (N.of_nat i * 7)%N).
Proof.
  eexists _, _. split; [vm_compute; reflexivity|].
  eapply (repeat_lv_returns_solution 4 3
            (start (λ i, (N.of_nat i * 7)%N) (fresh 4)) 6);
    [lia | lia | split; reflexivity | vm_compute; reflexivity].
Defined.

(** [repeat_lv] starts by resetting the board, so what the cells of the
    board held when it is called has no influence on what it does. *)
Theorem repeat_lv_ignores_board n k w b fuel :
  shape n (board w) → shape n b →
  repeat_lv fuel k w
  = repeat_lv fuel k (mkWorld b (rand_src w) (rand_calls w) (visited w)).
Proof.
  intros Hw Hb. destruct fuel as [|fuel]; [done|].
  unfold repeat_lv. rewrite !repeat_lv_loop_S.
  rewrite (bind_update _ _ w (fresh n)) by (by apply reset_board_fresh).
  by rewrite (bind_update _ _ (mkWorld b _ _ _) (fresh n))
    by (by apply reset_board_fresh).
Qed.

Lemma repeat_lv_ignores_board_witness :
  repeat_lv 6 2 (start (λ _, 1%N) (fresh 4))
  = repeat_lv 6 2 (mkWorld (put (fresh 4) 3 3 3 0) (λ _, 1%N) 0 [fresh 4]).
Proof.
  apply (repeat_lv_ignores_board 4 2 (start (λ _, 1%N) (fresh 4)));
    split; reflexivity.
Defined.

(** ** The random choice of a column *)

Section choice.
Variable n : Z.
Variable b : Board.
Variable y : Z.
Hypothesis b_shape : shape n b.
Hypothesis y_row : 0 ≤ y < n.


Lemma below_S_true (j : nat) :
  can_place_queen b (Z.of_nat j) y = Ok true →
  accepted_below b y (S j) = accepted_below b y j ++ [Z.of_nat j].
Proof.
  intros Hcan. unfold accepted_below. rewrite seqZ_S, filter_app. f_equal.
  rewrite Z.add_0_l. rewrite filter_cons_True; [done|].
  unfold accepts. by rewrite Hcan.
Qed.

Lemma below_S_false (j : nat) :
  can_place_queen b (Z.of_nat j) y = Ok false →
  accepted_below b y (S j) = accepted_below b y j.
Proof.
  intros Hcan. unfold accepted_below. rewrite seqZ_S, filter_app.
  rewrite Z.add_0_l. rewrite (filter_cons_False _ (Z.of_nat j)).
  - by rewrite filter_nil, app_nil_r.
  - unfold accepts. by rewrite Hcan.
Qed.

Lemma below_length (j : nat) : (length (accepted_below b y j) ≤ j)%nat.
Proof.
  unfold accepted_below. etrans; [apply length_filter|].
  rewrite length_seqZ. lia.
Qed.

Lemma collect_loop_exact (k : nat) : ∀ (j : nat) (s : list Z * Z),
  (j + k)%nat = Z.to_nat n → length s.1 = Z.to_nat n →
  s.2 = Z.of_nat (length (accepted_below b y j)) →
  take (length (accepted_below b y j)) s.1 = accepted_below b y j →
  ∃ s', for_loop k (Z.of_nat j) (collect_col b y) s = Ok s' ∧
    length s'.1 = Z.to_nat n ∧
    s'.2 = Z.of_nat (length (accepted_below b y (j + k))) ∧
    take (length (accepted_below b y (j + k))) s'.1
    = accepted_below b y (j + k).
Proof.
  induction k as [|k IH]; intros j s Hjk Hlen Hidx Htake.
  - exists s. rewrite Nat.add_0_r. by cbn.
  - assert (Hx : 0 ≤ Z.of_nat j < n) by lia.
    pose proof (shape_inside _ _ _ _ b_shape Hx y_row) as Hin.
    destruct (can_place_queen_inside _ _ _ Hin) as [c Hcan].
    pose proof (below_length j) as Hbl.
    replace (j + S k)%nat with (S j + k)%nat by lia.
    cbn [for_loop]. replace (Z.of_nat j + 1) with (Z.of_nat (S j)) by lia.
    destruct c.
    + rewrite collect_col_true by (done || lia). cbn [mbind res_bind].
      apply IH; cbn [fst snd]; rewrite ?below_S_true by done.
      * lia.
      * by rewrite length_insert.
      * rewrite length_app. cbn. lia.
      * rewrite Hidx, Nat2Z.id, length_app. cbn.
        rewrite Nat.add_1_r.
        rewrite (take_S_r _ _ (Z.of_nat j))
          by (apply list_lookup_insert_eq; lia).
        by rewrite take_insert_ge, Htake by lia.
    + rewrite collect_col_false by done. cbn [mbind res_bind].
      apply IH; rewrite ?below_S_false by done; try done. lia.
Qed.
End choice.

(** On a board of at most [max_size] rows the inner loop of [solve_lv]
    leaves in the front of its array the columns of row [y] that
    [can_place_queen] accepts, all of them and in increasing order, and
    their number in [index]. *)
Theorem available_free_columns n b y a :
  n ≤ max_size → shape n b → 0 ≤ y < n → length a = Z.to_nat n →
  ∃ s, available y a b = Ok s ∧
    s.2 = Z.of_nat (length (free_columns b y)) ∧
    take (length (free_columns b y)) s.1 = free_columns b y.
Proof.
  intros Hmax Hsh Hy Hlen. unfold available, for_range, free_columns.
  rewrite (shape_size _ _ Hsh), Z.sub_0_r.
  replace (seqZ 0 n) with (seqZ 0 (Z.of_nat (Z.to_nat n)))
    by (f_equal; lia).
  change (filter _ (seqZ 0 (Z.of_nat (Z.to_nat n))))
    with (accepted_below b y (Z.to_nat n)).
  destruct (collect_loop_exact n b y Hsh Hy (Z.to_nat n) 0 (a, 0))
    as (s & Hrun & _ & Hidx & Htake); try done.
  exists s. by split.
Qed.

Lemma available_free_columns_witness :
  ∃ s, available 1 (malloc 4) (put (fresh 4) 0 0 0 0) = Ok s ∧
    s.2 = Z.of_nat (length (free_columns (put (fresh 4) 0 0 0 0) 1)) ∧
    take (length (free_columns (put (fresh 4) 0 0 0 0) 1)) s.1
    = free_columns (put (fresh 4) 0 0 0 0) 1.
Proof.
  apply (available_free_columns 4);
    [unfold max_size; lia | split; reflexivity | lia | reflexivity].
Defined.

(** One turn of the outer loop of [solve_lv], on a board of at most
    [max_size] rows. If [can_place_queen]
    accepts no column of row [y], [solve_lv] returns false at once and
    draws no random number. Otherwise it draws one, [r], and places the
    queen of row [y] in the accepted column of rank [r % count], counted
    from the left. *)
Theorem random_queen_on_free_column n y a w k :
  n ≤ max_size → shape n (board w) → 0 ≤ y < n → length a = Z.to_nat n →
  let l := free_columns (board w) y in
  let r := Z.of_N (rand_src w (rand_calls w)) in
  (l = [] → ∃ a', solve_lv_rows (S k) y a w = Ok ((Some false, a'), w)) ∧
  (l ≠ [] → ∃ x a',
     l !! Z.to_nat (Z.rem r (Z.of_nat (length l))) = Some x ∧
     solve_lv_rows (S k) y a w
     = solve_lv_rows k (y + 1) a'
         (mkWorld (put (board w) x y x 0) (rand_src w) (S (rand_calls w))
                  (put (board w) x y x 0 :: visited w))).
Proof.
  intros Hmax Hsh Hy Hlen l r.
  assert (Hscan : ∃ s, available y a (board w) = Ok s ∧
            s.2 = Z.of_nat (length l) ∧ take (length l) s.1 = l).
  { unfold l, available, for_range, free_columns.
    rewrite (shape_size _ _ Hsh), Z.sub_0_r.
    replace (seqZ 0 n) with (seqZ 0 (Z.of_nat (Z.to_nat n)))
      by (f_equal; lia).
    destruct (collect_loop_exact n (board w) y Hsh Hy (Z.to_nat n) 0 (a, 0))
      as (s & Hrun & _ & Hidx & Htake); try done.
    by exists s. }
  destruct Hscan as (s & Havail & Hidx & Htake). split.
  - intros Hl. exists s.1. cbn [solve_lv_rows].
    rewrite (bind_query _ _ _ s) by done. by rewrite Hidx, Hl.
  - intros Hl.
    assert (Hpos : 0 < Z.of_nat (length l)) by (destruct l; [done | cbn; lia]).
    assert (Hrem : 0 ≤ Z.rem r (Z.of_nat (length l)) < Z.of_nat (length l)).
    { apply Z.rem_bound_pos; [unfold r|]; lia. }
    destruct (lookup_lt_is_Some_2 l (Z.to_nat (Z.rem r (Z.of_nat (length l)))))
      as [x Hlx]; [lia|].
    exists x, s.1. split; [done|].
    assert (Hxin : x ∈ l) by (by eapply list_elem_of_lookup_2).
    apply list_elem_of_filter in Hxin as [_ Hxn].
    apply elem_of_seqZ in Hxn. rewrite (shape_size _ _ Hsh) in Hxn.
    cbn [solve_lv_rows]. rewrite (bind_query _ _ _ s) by done.
    rewrite Hidx. destruct (Z.eqb_spec (Z.of_nat (length l)) 0); [lia|].
    rewrite bind_rand. fold r.
    rewrite (bind_lift _ _ _ x).
    2:{ apply rd_Ok. split; [lia|].
        rewrite <- (lookup_take_lt s.1 (length l)) by lia.
        by rewrite Htake. }
    rewrite (bind_update _ _ _ (put (board w) x y x 0)); [done|].
    cbn. apply place_queen_inside. eapply shape_inside; eauto.
Qed.

Lemma random_queen_on_free_column_witness :
  let w := start (λ _, 5%N) (put (fresh 4) 0 0 0 0) in
  let l := free_columns (board w) 1 in
  let r := Z.of_N (rand_src w (rand_calls w)) in
  (l = [] →
   ∃ a', solve_lv_rows 1 1 (malloc 4) w = Ok ((Some false, a'), w)) ∧
  (l ≠ [] → ∃ x a',
     l !! Z.to_nat (Z.rem r (Z.of_nat (length l))) = Some x ∧
     solve_lv_rows 1 1 (malloc 4) w
     = solve_lv_rows 0 (1 + 1) a'
         (mkWorld (put (board w) x 1 x 0) (rand_src w) (S (rand_calls w))
                  (put (board w) x 1 x 0 :: visited w))).
Proof.
  apply (random_queen_on_free_column 4 1 (malloc 4));
    [unfold max_size; lia | split; reflexivity | lia | reflexivity].
Defined.

(** ** The first solution *)

Section first_solution.
Variable n : Z.
Hypothesis n_pos : 0 < n.

(** Whatever fuel a run of [backtrack] returned with, it met the
    contract. *)
Lemma backtrack_run_post fuel y w r w' :
  search_state n y (board w) → backtrack fuel y w = Ok (r, w') →
  backtrack_post n y w r w'.
Proof.
  intros Hst Hrun. pose proof Hst as (_ & Hy & _).
  destruct (backtrack_spec n n_pos (Nat.max fuel (S (Z.to_nat n))) y w Hst)
    as (r0 & w0 & Hrun0 & Hpost); [lia|].
  apply (backtrack_fuel_le fuel (Nat.max fuel (S (Z.to_nat n)))) in Hrun;
    [|lia].
  rewrite Hrun in Hrun0. by injection Hrun0 as <- <-.
Qed.

Lemma backtrack_cols_least (rec : M bool) (y : Z) :
  0 ≤ y < n →
  (∀ w1 r w', search_state n (y + 1) (board w1) → rec w1 = Ok (r, w') →
     backtrack_post n (y + 1) w1 r w' ∧
     (r = true → least_from n (y + 1) w1 w')) →
  ∀ (k : nat) (x : Z) (w w' : World),
    Z.of_nat k = n - x → 0 ≤ x →
    search_state n y (board w) →
    (∀ s, is_solution n s → agree y (solution (board w)) s →
          ∀ x', 0 ≤ x' < x → rd s y ≠ Ok x') →
    backtrack_cols rec k x y w = Ok (true, w') →
    least_from n y w w'.
Proof.
  intros Hy Hrec. induction k as [|k IH]; intros x w w' Hk Hx Hst Hlow Hrun.
  - discriminate.
  - assert (Hxn : 0 ≤ x < n) by lia.
    pose proof Hst as (Hc & _ & _).
    pose proof (shape_inside _ _ _ _ (cons_shape _ _ Hc) Hxn Hy) as Hin.
    destruct (can_place_queen_inside _ _ _ Hin) as [c Hcan].
    cbn [backtrack_cols] in Hrun. rewrite (bind_query _ _ _ c) in Hrun by done.
    destruct c.
    + rewrite (bind_update _ _ _ (put (board w) x y x 0)) in Hrun
        by (by apply place_queen_inside).
      set (w1 := mkWorld (put (board w) x y x 0) _ _ _) in Hrun.
      assert (Hst1 : search_state n (y + 1) (board w1)).
      { apply search_state_place; [done | lia | done | done]. }
      apply bind_inv in Hrun as (r1 & w2 & Hrec1 & Hrest).
      destruct (Hrec w1 r1 w2 Hst1 Hrec1) as [(_ & _ & Hpost) Hleast].
      destruct r1.
      * injection Hrest as <-. destruct Hpost as [_ Hag2].
        intros s Hs Hag. pose proof Hs as (_ & Hfull & _).
        destruct (Hfull y) as (x2 & Hsy & Hx2); [lia|].
        assert (Hx1 : rd (solution (board w1)) y = Ok x).
        { cbn. apply rd_insert_eq.
          rewrite (shape_solution _ _ (cons_shape _ _ Hc)). lia. }
        assert (Hbelow : agree y (solution (board w1)) s).
        { intros i Hi. rewrite (Hag i Hi). cbn.
          symmetry. apply rd_insert_ne; lia. }
        destruct (decide (x2 = x)) as [->|Hne].
        -- apply Hleast; [done | done|]. intros i Hi.
           destruct (decide (i = y)) as [->|Hiy]; [congruence|].
           apply Hbelow. lia.
        -- right. exists y, x, x2. split; [lia|]. split.
           { intros i Hi. rewrite (Hbelow i Hi). symmetry. apply Hag2. lia. }
           split; [rewrite Hag2; [done | lia]|]. split; [done|].
           destruct (decide (x2 < x)); [|lia].
           destruct (Hlow s Hs Hag x2); [lia | done].
      * destruct Hpost as [Hb2 Hnone].
        assert (Hback : remove_queen (board w2) x y = Ok (board w)).
        { rewrite Hb2. unfold w1. cbn [board].
          rewrite remove_queen_inside.
          - f_equal. eapply place_remove; eauto; lia.
          - eapply shape_inside; eauto using shape_put, cons_shape. }
        rewrite (bind_update _ _ _ (board w)) in Hrest by done.
        apply (IH (x + 1)) in Hrest; [done | lia | lia | done |].
        cbn [board]. intros s Hs Hag x' Hx' Hsy.
        destruct (decide (x' = x)) as [->|Hne].
        -- apply (Hnone s Hs). intros i Hi. unfold w1. cbn [board solution put].
           destruct (decide (i = y)) as [->|Hiy].
           ++ rewrite rd_insert_eq; [done|].
              rewrite (shape_solution _ _ (cons_shape _ _ Hc)). lia.
           ++ rewrite rd_insert_ne by lia. apply Hag. lia.
        -- apply (Hlow s Hs Hag x'); [lia | done].
    + apply (IH (x + 1)) in Hrun; [done | lia | lia | done |].
      intros s Hs Hag x' Hx' Hsy.
      destruct (decide (x' = x)) as [->|Hne].
      * eapply refused_square; eauto. lia.
      * apply (Hlow s Hs Hag x'); [lia | done].
Qed.

Lemma backtrack_least (fuel : nat) : ∀ (y : Z) (w w' : World),
  search_state n y (board w) → backtrack fuel y w = Ok (true, w') →
  least_from n y w w'.
Proof.
  induction fuel as [|fuel IH]; intros y w w' Hst Hrun; [discriminate|].
  cbn [backtrack] in Hrun.
  rewrite (bind_query _ _ _ _ (is_valid_search_state _ _ _ n_pos Hst)) in Hrun.
  pose proof Hst as (Hc & Hy & _).
  case_bool_decide as Hyn.
  - injection Hrun as <-. subst y. intros s Hs Hag. by left.
  - rewrite (bind_query _ _ _ n) in Hrun
      by (by rewrite (shape_size _ _ (cons_shape _ _ Hc))).
    apply (backtrack_cols_least (backtrack fuel (y + 1)) y)
      with (k := Z.to_nat (n - 0)) (x := 0) (w := w); try done; try lia.
    intros w1 r w2 Hst1 Hrun1. split; [by eapply backtrack_run_post|].
    intros ->. by apply IH.
Qed.
End first_solution.



(** ** A random source that never varies *)

Section constant_source.
Variable c : N.

Lemma alike_ret {A : Type} (a : A) : alike_runs c (ret a).
Proof. by intros w1 w2 H. Qed.

Lemma alike_bind {A B : Type} (m : M A) (f : A → M B) :
  alike_runs c m → (∀ a, alike_runs c (f a)) → alike_runs c (bind m f).
Proof.
  intros Hm Hf w1 w2 H. specialize (Hm w1 w2 H). unfold bind.
  destruct (m w1) as [[a1 w1']| |], (m w2) as [[a2 w2']| |]; try done.
  destruct Hm as [<- H']. by apply Hf.
Qed.

Lemma alike_query {A : Type} (f : Board → res A) : alike_runs c (query f).
Proof.
  intros w1 w2 H. unfold query. destruct H as (Hb & H1 & H2). rewrite Hb.
  by destruct (f (board w2)).
Qed.

Lemma alike_update (f : Board → res Board) : alike_runs c (update f).
Proof.
  intros w1 w2 H. unfold update. destruct H as (Hb & H1 & H2). rewrite Hb.
  by destruct (f (board w2)).
Qed.

Lemma alike_rand : alike_runs c rand.
Proof.
  intros w1 w2 (Hb & H1 & H2). unfold rand. cbn. by rewrite H1, H2.
Qed.

Lemma alike_lift {A : Type} (r : res A) : alike_runs c (lift r).
Proof. intros w1 w2 H. unfold lift. by destruct r. Qed.

Lemma alike_backtrack_cols (rec : M bool) (k : nat) : ∀ x y,
  alike_runs c rec → alike_runs c (backtrack_cols rec k x y).
Proof.
  induction k as [|k IH]; intros x y Hrec; [apply alike_ret|].
  cbn [backtrack_cols]. apply alike_bind; [apply alike_query|].
  intros [|]; [|by apply IH].
  apply alike_bind; [apply alike_update|]. intros _.
  apply alike_bind; [done|]. intros [|]; [apply alike_ret|].
  apply alike_bind; [apply alike_update|]. intros _. by apply IH.
Qed.

Lemma alike_backtrack (fuel : nat) : ∀ y, alike_runs c (backtrack fuel y).
Proof.
  induction fuel as [|fuel IH]; intros y; [by intros w1 w2 H|].
  cbn [backtrack]. apply alike_bind; [apply alike_query|].
  intros [|]; [apply alike_ret|].
  apply alike_bind; [apply alike_query|]. intros m.
  apply alike_backtrack_cols, IH.
Qed.

Lemma alike_solve_lv_rows (k : nat) : ∀ y a,
  alike_runs c (solve_lv_rows k y a).
Proof.
  induction k as [|k IH]; intros y a; [apply alike_ret|].
  cbn [solve_lv_rows]. apply alike_bind; [apply alike_query|]. intros s.
  destruct (s.2 =? 0); [apply alike_ret|].
  apply alike_bind; [apply alike_rand|]. intros r.
  apply alike_bind; [apply alike_lift|]. intros x.
  apply alike_bind; [apply alike_update|]. intros _. apply IH.
Qed.

Lemma alike_solve_lv (fuel : nat) (k : Z) : alike_runs c (solve_lv fuel k).
Proof.
  unfold solve_lv. apply alike_bind; [apply alike_query|]. intros m.
  apply alike_bind; [apply alike_solve_lv_rows|]. intros [[r|] a]; cbn.
  - apply alike_ret.
  - apply alike_backtrack.
Qed.

(** After a trial that failed, no later trial succeeds. *)
Lemma repeat_lv_loop_stuck n k (fuel0 : nat) w0 w0' :
  0 < n → 0 ≤ k ≤ n → board w0 = fresh n → rand_src w0 = (λ _, c) →
  solve_lv fuel0 k w0 = Ok (false, w0') →
  ∀ (fuel : nat) t w v,
    shape n (board w) → rand_src w = (λ _, c) →
    repeat_lv_loop fuel k t w ≠ Ok v.
Proof.
  intros Hn Hk Hb0 Hsrc0 Hfail.
  induction fuel as [|fuel IH]; intros t w v Hsh Hsrc Hrun; [done|].
  rewrite repeat_lv_loop_S in Hrun.
  rewrite (bind_update _ _ _ (fresh n)) in Hrun
    by (by apply reset_board_fresh).
  set (w1 := mkWorld (fresh n) _ _ _) in Hrun.
  apply bind_inv in Hrun as (found & w2 & Hsolve & Hrest).
  apply (solve_lv_fuel_le fuel (Nat.max fuel fuel0)) in Hsolve; [|lia].
  apply (solve_lv_fuel_le fuel0 (Nat.max fuel fuel0)) in Hfail; [|lia].
  pose proof (alike_solve_lv (Nat.max fuel fuel0) k w1 w0) as Hal.
  rewrite Hsolve, Hfail in Hal. destruct Hal as [-> (Hb2 & Hsrc2 & _)].
  { by split. }
  destruct (solve_lv_spec n Hn (Nat.max fuel0 (S (Z.to_nat n))) k w0)
    as (r & w3 & Hrun3 & _ & Hpost);
    [done | rewrite Hb0; by apply search_state_fresh | lia |].
  apply (solve_lv_fuel_le _ (Nat.max (Nat.max fuel fuel0)
                                     (Nat.max fuel0 (S (Z.to_nat n)))))
    in Hfail, Hrun3; try lia.
  rewrite Hfail in Hrun3. injection Hrun3 as <- <-.
  destruct Hpost as [[y Hst] _].
  apply (IH (t + 1) w2 v); [|done|done].
  rewrite Hb2. by eapply search_state_shape.
Qed.
End constant_source.

(** With a random source that returns the same number at every call,
    [repeat_lv] returns after its first trial or not at all: a trial that
    failed fails again. *)
Theorem repeat_lv_constant_source n k c w fuel t w' :
  0 < n → 0 ≤ k ≤ n → shape n (board w) → rand_src w = (λ _, c) →
  repeat_lv fuel k w = Ok (t, w') → t = 1.
Proof.
  intros Hn Hk Hsh Hsrc Hrun. unfold repeat_lv in Hrun.
  destruct fuel as [|fuel]; [done|].
  rewrite repeat_lv_loop_S in Hrun.
  rewrite (bind_update _ _ _ (fresh n)) in Hrun
    by (by apply reset_board_fresh).
  set (w0 := mkWorld (fresh n) _ _ _) in Hrun.
  apply bind_inv in Hrun as (found & w1 & Hsolve & Hrest).
  destruct found; [by injection Hrest as <- _|].
  assert (Hsrc1 : rand_src w1 = (λ _, c)).
  { pose proof (alike_solve_lv c fuel k w0 w0) as Hal.
    rewrite Hsolve in Hal. by destruct Hal as [_ (_ & _ & Hs)]; [split|]. }
  assert (Hsh1 : shape n (board w1)).
  { destruct (solve_lv_spec n Hn (Nat.max fuel (S (Z.to_nat n))) k w0)
      as (r & w3 & Hrun3 & _ & Hpost);
      [done | by apply search_state_fresh | lia |].
    pose proof Hsolve as Hsolve'.
    apply (solve_lv_fuel_le fuel (Nat.max fuel (S (Z.to_nat n)))) in Hsolve';
      [|lia].
    rewrite Hsolve' in Hrun3. injection Hrun3 as <- <-.
    destruct Hpost as [[y Hst] _]. by eapply search_state_shape. }
  exfalso. revert Hrest.
  by apply (repeat_lv_loop_stuck c n k fuel w0 w1).
Qed.

Lemma repeat_lv_constant_source_witness :
  ∃ t w', repeat_lv 6 1 (start (λ _, 1%N) (fresh 4)) = Ok (t, w') ∧ t = 1.
Proof.
  eexists _, _. split; [vm_compute; reflexivity|].
  eapply (repeat_lv_constant_source 4 1 1%N (start (λ _, 1%N) (fresh 4)) 6);
    [lia | lia | split; reflexivity | reflexivity | vm_compute; reflexivity].
Defined.

(** * Printing a solution *)

Lemma string_app_cons (a : Ascii.ascii) (s t : string) :
  String a s +:+ t = String a (s +:+ t).
Proof. reflexivity. Qed.

Lemma string_app_nil_r (s : string) : s +:+ "" = s.
Proof.
  induction s as [|a s IH]; [done|]. by rewrite string_app_cons, IH.
Qed.

Lemma string_app_assoc (s1 s2 s3 : string) :
  (s1 +:+ s2) +:+ s3 = s1 +:+ s2 +:+ s3.
Proof.
  induction s1 as [|a s1 IH]; [done|]. by rewrite !string_app_cons, IH.
Qed.

Lemma concat_with_commas (s : list Z) (v : Z) :
  String.concat "," (pretty <$> (s ++ [v])) = with_commas s +:+ pretty v.
Proof.
  induction s as [|u s IH]; [done|].
  cbn [with_commas]. rewrite !string_app_assoc, <- IH.
  change (pretty <$> (u :: s) ++ [v])
    with (pretty u :: (pretty <$> s ++ [v])).
  destruct (s ++ [v]) as [|u' s'] eqn:E; [by destruct s|]. done.
Qed.

Lemma print_cells (b : Board) (k : nat) : ∀ (j : nat) (out : string),
  (j + k ≤ length (solution b))%nat →
  for_loop k (Z.of_nat j) (print_cell b) out
  = Ok (out +:+ with_commas (take k (drop j (solution b)))).
Proof.
  induction k as [|k IH]; intros j out Hjk.
  - cbn. by rewrite string_app_nil_r.
  - destruct (lookup_lt_is_Some_2 (solution b) j) as [v Hv]; [lia|].
    assert (Hrd : rd (solution b) (Z.of_nat j) = Ok v).
    { apply rd_Ok. split; [lia|]. by rewrite Nat2Z.id. }
    assert (Hcell : print_cell b (Z.of_nat j) out
                    = Ok (out +:+ pretty v +:+ ",")).
    { unfold print_cell. by rewrite Hrd. }
    cbn [for_loop]. rewrite Hcell. cbn [mbind res_bind].
    replace (Z.of_nat j + 1) with (Z.of_nat (S j)) by lia.
    rewrite IH by lia. f_equal.
    rewrite (drop_S _ _ _ Hv). cbn [take with_commas].
    by rewrite !string_app_assoc.
Qed.

Lemma print_board_listing n b :
  0 < n → shape n b → print_board b = Ok (listing (solution b)).
Proof.
  intros Hn Hsh. unfold print_board, for_range.
  rewrite (shape_size _ _ Hsh). pose proof (shape_solution _ _ Hsh) as Hlen.
  replace (Z.to_nat (n - 1 - 0)) with (Z.to_nat (n - 1)) by lia.
  rewrite (print_cells b _ 0) by (cbn; lia). cbn [mbind res_bind drop].
  destruct (lookup_lt_is_Some_2 (solution b) (Z.to_nat (n - 1)))
    as [v Hv]; [lia|].
  assert (Hrd : rd (solution b) (n - 1) = Ok v).
  { apply rd_Ok. split; [lia | done]. }
  rewrite Hrd. cbn [mbind res_bind]. f_equal. unfold listing.
  assert (Hsplit : solution b = take (Z.to_nat (n - 1)) (solution b) ++ [v]).
  { rewrite <- (take_drop (Z.to_nat (n - 1)) (solution b)) at 1. f_equal.
    rewrite (drop_S _ _ _ Hv). rewrite drop_ge by lia. done. }
  rewrite Hsplit at 2. rewrite concat_with_commas.
  by rewrite !string_app_assoc.
Qed.

(** [print_board] on a board of size [n > 0] writes the columns of rows 0
    to [n - 1], in brackets and separated by commas, and a line break; for
    [n <= 0] it reads [solution[n - 1]] out of bounds. *)
Theorem print_board_text n b :
  shape n b →
  print_board b = if 0 <? n then Ok (listing (solution b)) else OutOfBounds.
Proof.
  intros Hsh. destruct (Z.ltb_spec 0 n) as [Hn|Hn].
  - by apply (print_board_listing n).
  - unfold print_board, for_range. rewrite (shape_size _ _ Hsh).
    replace (Z.to_nat (n - 1 - 0)) with 0%nat by lia.
    cbn [for_loop mbind res_bind]. rewrite rd_out_of_bounds; [done|].
    rewrite (shape_solution _ _ Hsh). lia.
Qed.

Lemma print_board_text_witness :
  print_board (mkBoard 4 3 [1; 3; 0; 2] [0; 0; 0; 0] [1; 0; 1; 0; 1; 0; 0]
                       [1; 0; 1; 0; 1; 0; 1])
  = if 0 <? 4 then Ok (listing [1; 3; 0; 2]) else OutOfBounds.
Proof. apply (print_board_text 4). split; reflexivity. Defined.

(** Whatever [print_solution] writes, for [n > 0] queens of which
    [0 <= k <= n] are random, is the listing of a solution of the
    [n]-queens problem. *)
Theorem print_solution_prints_solution n k w fuel out w' :
  0 < n → 0 ≤ k ≤ n →
  print_solution fuel n k w = Ok (out, w') →
  ∃ s, is_solution n s ∧ out = listing s.
Proof.
  intros Hn Hk Hrun. unfold print_solution in Hrun.
  rewrite create_board_fresh in Hrun. cbn [mbind res_bind] in Hrun.
  apply bind_Ok in Hrun as ([t w1] & Hrep & Hrun).
  apply bind_Ok in Hrun as (text & Hprint & Hrun). injection Hrun as <- _.
  unfold repeat_lv in Hrep.
  apply (repeat_lv_loop_spec n Hn) in Hrep as (_ & _ & Hfull & _);
    [|done|apply shape_fresh].
  cbn [snd] in Hprint.
  rewrite (print_board_listing n) in Hprint
    by (done || by eapply search_state_shape).
  injection Hprint as <-.
  exists (solution (board w1)). split; [|done]. by apply search_state_full.
Qed.

Lemma print_solution_prints_solution_witness :
  ∃ out w', print_solution 6 4 2 (start (λ _, 1%N) (fresh 4)) = Ok (out, w') ∧
    ∃ s, is_solution 4 s ∧ out = listing s.
Proof.
  eexists _, _. split; [vm_compute; reflexivity|].
  eapply (print_solution_prints_solution 4 2 (start (λ _, 1%N) (fresh 4)) 6);
    [lia | lia | vm_compute; reflexivity].
Defined.

(** Without random queens, on a size [n], positive and below [max_size],
    that has a solution, [print_solution] returns, and writes the listing
    of the first solution. *)
Theorem print_solution_first n w fuel s :
  0 < n < max_size → is_solution n s → (Z.to_nat n + 1 < fuel)%nat →
  ∃ s1 w', print_solution fuel n 0 w = Ok (listing s1, w') ∧
    is_solution n s1 ∧ lex_le n s1 s.
Proof.
  intros [Hn Hmax] Hs Hfuel. unfold print_solution.
  rewrite create_board_fresh. cbn [mbind res_bind].
  set (w0 := mkWorld (fresh n) _ _ _).
  destruct (backtrack_spec n Hn (S (Z.to_nat n)) 0 (after_reset n w0))
    as (r & w1 & Hrun & _ & _ & Hpost);
    [by apply search_state_fresh | lia |].
  assert (Hag : agree 0 (solution (board (after_reset n w0))) s)
    by (intros i Hi; lia).
  destruct r; [|destruct Hpost as [_ Hnone]; by destruct (Hnone s Hs)].
  destruct Hpost as [Hfull _].
  assert (Hrep : repeat_lv fuel 0 w0 = Ok (1, w1)).
  { apply (repeat_lv_fuel_le (S (S (Z.to_nat n)))); [lia|].
    unfold repeat_lv. rewrite repeat_lv_loop_S.
    rewrite (bind_update _ _ _ (fresh n))
      by (apply reset_board_fresh, shape_fresh).
    rewrite (bind_run _ _ _ true w1); [done|]. by rewrite solve_lv_zero. }
  rewrite Hrep. cbn [mbind res_bind snd].
  rewrite (print_board_listing n) by (done || by eapply search_state_shape).
  cbn [mbind res_bind].
  eexists _, _. split; [done|]. split; [by apply search_state_full|].
  apply (backtrack_least n Hn (S (Z.to_nat n)) 0 (after_reset n w0) w1);
    try done. by apply search_state_fresh.
Qed.

Lemma print_solution_first_witness :
  ∃ s1 w', print_solution 6 4 0 (start (λ _, 0%N) (fresh 4))
           = Ok (listing s1, w') ∧
    is_solution 4 s1 ∧ lex_le 4 s1 [2; 0; 3; 1].
Proof.
  apply (print_solution_first 4 (start (λ _, 0%N) (fresh 4)) 6 [2; 0; 3; 1]).
  - unfold max_size. lia.
  - apply four_queens_solutions.
  - cbn. lia.
Defined.
